(** * microsim: optical configurations

    A shallow embedding of [microsim/schema/optical_config/config.py]
    ([LightSource], [OpticalConfig]) and the properties of its derived
    quantities: the excitation and emission filters, the illumination
    spectrum, the irradiance, the absorption rate and the FPbase lookup.

    Collaborators that live outside [config.py] ([Spectrum], [Filter],
    the FPbase client, the validation framework) are parameters of the
    development, gathered in the classes [Optics], [Remote] and
    [Validation]. *)

From Stdlib Require Import Ascii String QArith Qfield.
From stdpp Require Import base option list strings gmap.


(** ** Python strings

    A [str] is a [string]; every character is one code point below 256
    (the Latin-1 range of Unicode), which is where [str.lower] and [repr]
    are defined below. *)

Module Str.

Definition code (a : ascii) : nat := nat_of_ascii a.

(** [str.lower] on one code point: A-Z and the upper case letters
    U+00C0..U+00DE (without the multiplication sign U+00D7). *)
Definition lower_char (a : ascii) : ascii :=
  let n := code a in
  if ((65 <=? n) && (n <=? 90)) || ((192 <=? n) && (n <=? 222) && negb (n =? 215))
  then ascii_of_nat (n + 32) else a.

Fixpoint lower (s : string) : string :=
  match s with
  | EmptyString => EmptyString
  | String a s' => String (lower_char a) (lower s')
  end.

(** [sub in s] *)
Fixpoint contains (sub s : string) : bool :=
  String.prefix sub s ||
  match s with
  | EmptyString => false
  | String _ s' => contains sub s'
  end.

(** The text [s] has [sub] as a contiguous part. *)
Definition infix (sub s : string) : Prop :=
  ∃ pre post, s = pre +:+ sub +:+ post.

(** [s.split(sep)] for a non-empty [sep]: a left-to-right scan, [cur] is
    the piece read so far and [skip] counts the characters of a separator
    still to be passed over. *)
Fixpoint split_go (sep : string) (skip : nat) (cur s : string) : list string :=
  match s with
  | EmptyString => [cur]
  | String a s' =>
      match skip with
      | S k => split_go sep k cur s'
      | O =>
          if String.prefix sep s
          then cur :: split_go sep (String.length sep - 1) EmptyString s'
          else split_go sep 0 (cur +:+ String a EmptyString) s'
      end
  end.

Definition split (sep s : string) : list string := split_go sep 0 EmptyString s.

(** [sep.join(l)] *)
Definition join (sep : string) (l : list string) : string := String.concat sep l.

Definition hex_digit (n : nat) : ascii :=
  ascii_of_nat (if n <? 10 then 48 + n else 87 + n).

(** [str.isprintable] on one code point below 256. *)
Definition printable (n : nat) : bool :=
  ((32 <=? n) && (n <=? 126)) || ((161 <=? n) && negb (n =? 173)).

Definition backslash : ascii := ascii_of_nat 92.
Definition squote : ascii := ascii_of_nat 39.
Definition dquote : ascii := ascii_of_nat 34.

(** One character of [repr(s)] inside the quote character [q]. *)
Definition repr_char (q a : ascii) : string :=
  let n := code a in
  if Ascii.eqb a q || Ascii.eqb a backslash then String backslash (String a EmptyString)
  else if n =? 9 then "\t"
  else if n =? 10 then "\n"
  else if n =? 13 then "\r"
  else if printable n then String a EmptyString
  else "\x" +:+ String (hex_digit (n / 16)) (String (hex_digit (n mod 16)) EmptyString).

Fixpoint repr_body (q : ascii) (s : string) : string :=
  match s with
  | EmptyString => EmptyString
  | String a s' => repr_char q a +:+ repr_body q s'
  end.

Definition has_char (a : ascii) (s : string) : bool :=
  existsb (Ascii.eqb a) (list_ascii_of_string s).

(** [repr(s)]: single quotes, unless [s] has a single quote and no
    double quote. *)
Definition repr (s : string) : string :=
  let q := if has_char squote s && negb (has_char dquote s) then dquote else squote in
  String q (repr_body q s +:+ String q EmptyString).

End Str.

(** ** Numbers

    A Python [float] is modelled in exact rational arithmetic, extended
    with the three non-finite values of IEEE 754; rounding and the sign of
    zero are left out (a zero divisor counts as [+0.0]). Every division of
    [config.py] is one of arrays, where a zero divisor gives an infinity
    or [NaN] and raises nothing. *)

Module Float.

Inductive t := Fin (q : Q) | PInf | NInf | NaN.

(** The sign of a value: [Lt], [Eq] (zero) or [Gt]; none for [NaN]. *)
Definition sign (x : t) : option comparison :=
  match x with
  | Fin q => Some (q ?= 0)%Q
  | PInf => Some Gt
  | NInf => Some Lt
  | NaN => None
  end.

Definition sign_mul (a b : comparison) : comparison :=
  match a, b with
  | Eq, _ | _, Eq => Eq
  | Gt, Gt | Lt, Lt => Gt
  | _, _ => Lt
  end.

(** The infinity of a given sign; sign zero stands for an invalid
    operation. *)
Definition inf (s : comparison) : t :=
  match s with Gt => PInf | Lt => NInf | Eq => NaN end.

Definition add (x y : t) : t :=
  match x, y with
  | NaN, _ | _, NaN => NaN
  | Fin a, Fin b => Fin (a + b)
  | PInf, NInf | NInf, PInf => NaN
  | Fin _, i | i, _ => i
  end.

Definition mul (x y : t) : t :=
  match x, y with
  | Fin a, Fin b => Fin (a * b)
  | _, _ =>
      match sign x, sign y with
      | Some sx, Some sy => inf (sign_mul sx sy)
      | _, _ => NaN
      end
  end.

Definition div (x y : t) : t :=
  match x, y with
  | NaN, _ | _, NaN => NaN
  | Fin a, Fin b => if Qeq_bool b 0 then inf (a ?= 0)%Q else Fin (a / b)
  | Fin _, _ => Fin 0
  | _, Fin b => if Qeq_bool b 0 then x else inf (sign_mul (default Eq (sign x)) (b ?= 0)%Q)
  | _, _ => NaN
  end.

Definition is_fin (x : t) : Prop := ∃ q, x = Fin q.

Definition is_nan (x : t) : bool :=
  match x with NaN => true | _ => false end.

(** [x] is the finite number [q], up to equality of fractions. *)
Definition is_num (x : t) (q : Q) : Prop := ∃ q', x = Fin q' ∧ (q' == q)%Q.

End Float.

(** scipy.constants: the Planck constant (J s) and the speed of light (m/s). *)
Definition h : Q := 662607015 # (10 ^ 42).
Definition c : Q := 299792458 # 1.

(** ** Labelled arrays

    An [xarray.DataArray] with the one dimension ["w"]: its name, its
    attributes, and its values paired with their wavelength coordinate. *)

Record DataArray := mkDataArray {
  da_name : option string;
  attrs : gmap string string;
  data : list (Q * Float.t)
}.

Module DA.

(** The name of the result of a binary operation: kept when both
    operands agree on it. *)
Definition result_name (n1 n2 : option string) : option string :=
  if decide (n1 = n2) then n1 else None.

Definition values (a : DataArray) : list Float.t := (data a).*2.

(** The values that are numbers or infinities. *)
Definition skipna (l : list Float.t) : list Float.t :=
  List.filter (λ v, negb (Float.is_nan v)) l.

(** [a.sum()]: the sum of an array of floats leaves out the values that
    are [NaN] (the default [skipna] of the array library); the sum of no
    value is zero. *)
Definition sum (a : DataArray) : Float.t :=
  fold_left Float.add (skipna (values a)) (Float.Fin 0).

(** An operation with a scalar, value by value. *)
Definition map (f : Float.t → Float.t) (a : DataArray) : DataArray :=
  mkDataArray (da_name a) ∅ (prod_map id f <$> data a).

(** The value at the wavelength label [w]. *)
Definition sel (w : Q) (a : DataArray) : option Float.t :=
  snd <$> find (λ p, Qeq_bool p.1 w) (data a).

(** Two arrays carry the same labels, in the same order. *)
Fixpoint same_index (d1 d2 : list (Q * Float.t)) : bool :=
  match d1, d2 with
  | [], [] => true
  | p1 :: d1', p2 :: d2' => Qeq_bool p1.1 p2.1 && same_index d1' d2'
  | _, _ => false
  end.

(** A binary operation between two arrays. With the same labels on both
    sides the values are combined position by position; otherwise the
    operands are first aligned on the labels they share (an inner join,
    in the order of the left operand; the labels of an array are taken
    to be distinct). *)
Definition binop (f : Float.t → Float.t → Float.t) (a b : DataArray) : DataArray :=
  mkDataArray (result_name (da_name a) (da_name b)) ∅
    (if same_index (data a) (data b)
     then zip_with (λ p q, (p.1, f p.2 q.2)) (data a) (data b)
     else omap (λ p, (λ y, (p.1, f p.2 y)) <$> sel p.1 b) (data a)).

(** [a.coords["w"]] as an array of its own. *)
Definition coords_w (a : DataArray) : DataArray :=
  mkDataArray (Some "w") ∅ ((λ p, (p.1, Float.Fin p.1)) <$> data a).

Definition set_name (n : string) (a : DataArray) : DataArray :=
  mkDataArray (Some n) (attrs a) (data a).

Definition set_attr (k v : string) (a : DataArray) : DataArray :=
  mkDataArray (da_name a) (<[k := v]> (attrs a)) (data a).

End DA.

(** ** Exceptions *)

Inductive exception :=
  | ValueError (msg : string)
  | ValidationError (cause : exception)
  | ExternalError (msg : string).

Inductive result (A : Type) :=
  | Ok (a : A)
  | Err (e : exception).
Arguments Ok {A} a.
Arguments Err {A} e.

#[global] Instance result_ret : MRet result := λ A a, Ok a.
#[global] Instance result_bind : MBind result := λ A B k r,
  match r with
  | Ok a => k a
  | Err e => Err e
  end.

(** ** Data model *)

Inductive Placement := EX_PATH | EM_PATH | BS | BS_INV | ALL.

#[global] Instance Placement_eq_dec : EqDecision Placement.
Proof. solve_decision. Defined.

(** [Filter]: the attributes [config.py] reads from any of the filter
    classes of [filter.py]. *)
Record Filter (Spectrum : Type) := mkFilter {
  f_name : string;
  placement : Placement;
  spectrum : Spectrum
}.
Arguments mkFilter {Spectrum} _ _ _.
Arguments f_name {Spectrum} _.
Arguments placement {Spectrum} _.
Arguments spectrum {Spectrum} _.

Record LightSource (Spectrum : Type) := mkLightSource {
  ls_name : string;
  ls_spectrum : Spectrum;
  ls_power : option Q
}.
Arguments mkLightSource {Spectrum} _ _ _.
Arguments ls_name {Spectrum} _.
Arguments ls_spectrum {Spectrum} _.
Arguments ls_power {Spectrum} _.

Record OpticalConfig (Spectrum : Type) := mkOpticalConfig {
  name : string;
  filters : list (Filter Spectrum);
  lights : list (LightSource Spectrum);
  power : option Q
}.
Arguments mkOpticalConfig {Spectrum} _ _ _ _.
Arguments name {Spectrum} _.
Arguments filters {Spectrum} _.
Arguments lights {Spectrum} _.
Arguments power {Spectrum} _.

Record Fluorophore := mkFluorophore {
  absorption_cross_section : DataArray
}.

(** The records of the FPbase client. *)
Record SpectrumOwner (FPSpectrum : Type) := mkSpectrumOwner {
  so_name : string;
  so_spectrum : FPSpectrum
}.
Arguments so_name {FPSpectrum} _.
Arguments so_spectrum {FPSpectrum} _.

Record FPbaseOpticalConfig (FPSpectrum FPFilter : Type) := mkFPbaseOpticalConfig {
  cfg_name : string;
  cfg_light : option (SpectrumOwner FPSpectrum);
  cfg_filters : list FPFilter
}.
Arguments cfg_name {FPSpectrum FPFilter} _.
Arguments cfg_light {FPSpectrum FPFilter} _.
Arguments cfg_filters {FPSpectrum FPFilter} _.

Record FPbaseMicroscope (FPSpectrum FPFilter : Type) := mkFPbaseMicroscope {
  opticalConfigs : list (FPbaseOpticalConfig FPSpectrum FPFilter)
}.
Arguments opticalConfigs {FPSpectrum FPFilter} _.

(** ** Collaborators

    [spectrum.py] and [filter.py]: the spectrum type with its product and
    its conversion to an array, the inversion of a filter, and the
    placement a [SpectrumFilter] gets when none is given. *)
Class Optics := {
  Spectrum : Type;
  smul : Spectrum → Spectrum → Spectrum;
  as_xarray : Spectrum → DataArray;
  inverted : Filter Spectrum → Filter Spectrum;
  default_placement : Placement
}.

(** [microsim.fpbase] and the two [from_fpbase] constructors of
    [spectrum.py] and [filter.py]. *)
Class Remote `{Optics} := {
  FPSpectrum : Type;
  FPFilter : Type;
  Spectrum_from_fpbase : FPSpectrum → Spectrum;
  SpectrumFilter_from_fpbase : FPFilter → Filter Spectrum;
  get_microscope : string → result (FPbaseMicroscope FPSpectrum FPFilter)
}.

(** The validation framework: [model_dump] and the validation of the
    fields of a dumped model. *)
Class Validation `{Optics} := {
  Dict : Type;
  model_dump : OpticalConfig Spectrum → Dict;
  validate_fields : Dict → result (OpticalConfig Spectrum)
}.

(** A validation framework that keeps values: [model_dump] gives the
    dictionary of the four field values, and such a dictionary is
    validated to the configuration that holds these values. *)
Section FieldValues.
Context `{Optics}.

Record Fields := mkFields {
  d_name : string;
  d_filters : list (Filter Spectrum);
  d_lights : list (LightSource Spectrum);
  d_power : option Q
}.

Definition field_values : Validation := {|
  Dict := Fields;
  model_dump := λ cfg, mkFields (name cfg) (filters cfg) (lights cfg) (power cfg);
  validate_fields := λ d,
    Ok (mkOpticalConfig (d_name d) (d_filters d) (d_lights d) (d_power d))
|}.

End FieldValues.

(** ** The optical configuration *)

Section OpticalConfig.
Context `{Optics}.

Implicit Types (f : Filter Spectrum) (self : OpticalConfig Spectrum).

(** [SpectrumFilter(name=..., transmission=...)] *)
Definition SpectrumFilter (nm : string) (transmission : Spectrum) : Filter Spectrum :=
  mkFilter nm default_placement transmission.

(** [f.placement in {...}] *)
Definition placement_in (p : Placement) (ps : list Placement) : bool :=
  bool_decide (p ∈ ps).

Definition _merge self (filters : list (Filter Spectrum)) (path : string)
  : option (Filter Spectrum) :=
  match filters with
  | [] => None
  | [f] => Some f
  | f0 :: rest =>
      let effective_spectrum :=
        fold_left (λ effective_spectrum filt, smul effective_spectrum (spectrum filt))
          rest (spectrum f0) in
      Some (SpectrumFilter ("Effective " +:+ path +:+ " for " +:+ name self)
              effective_spectrum)
  end.

(** One turn of the loop of [excitation]. *)
Definition excitation_step (filters : list (Filter Spectrum)) f : list (Filter Spectrum) :=
  let filters :=
    if placement_in (placement f) [EX_PATH; BS_INV; ALL] then filters ++ [f] else filters in
  if bool_decide (placement f = BS) then filters ++ [inverted f] else filters.

Definition excitation_filters (fs : list (Filter Spectrum)) : list (Filter Spectrum) :=
  fold_left excitation_step fs [].

Definition excitation self : option (Filter Spectrum) :=
  _merge self (excitation_filters (filters self)) "excitation".

(** One turn of the loop of [emission]. *)
Definition emission_step (filters : list (Filter Spectrum)) f : list (Filter Spectrum) :=
  let filters :=
    if placement_in (placement f) [EM_PATH; BS; ALL] then filters ++ [f] else filters in
  if bool_decide (placement f = BS_INV) then filters ++ [inverted f] else filters.

Definition emission_filters (fs : list (Filter Spectrum)) : list (Filter Spectrum) :=
  fold_left emission_step fs [].

Definition emission self : option (Filter Spectrum) :=
  _merge self (emission_filters (filters self)) "emission".

(** [if exc:] asks whether [exc] is a filter or [None]: a filter object,
    like every model object, is true. *)
Definition illumination self : option Spectrum :=
  let exc := excitation self in
  match lights self with
  | l0 :: rest =>
      let illum_spect := ls_spectrum l0 in
      let illum_spect :=
        match rest with
        | [] => illum_spect
        | _ => fold_left (λ illum_spect light, smul illum_spect (ls_spectrum light))
                 rest illum_spect
        end in
      match exc with
      | Some exc => Some (smul illum_spect (spectrum exc))
      | None => Some illum_spect
      end
  | [] =>
      match exc with
      | Some exc => Some (spectrum exc)
      | None => None
      end
  end.

Definition irradiance self : result DataArray :=
  match illumination self with
  | None => Err (ValueError "This Optical Config has no illumination spectrum.")
  | Some illum =>
      let irrad := as_xarray illum in
      let irrad := DA.map (λ x, Float.div x (DA.sum irrad)) irrad in
      let irrad := DA.set_name "irradiance" irrad in
      let irrad := DA.set_attr "long_name" "Irradiance" irrad in
      let irrad := DA.set_attr "units" "W/cm^2" irrad in
      Ok irrad
  end.

Definition absorption_rate self (fluorophore : Fluorophore) : result DataArray :=
  irrad ← irradiance self;
  let cross_section := absorption_cross_section fluorophore in
  let watts_absorbed := DA.binop Float.mul irrad cross_section in
  let wavelength_meters :=
    DA.map (λ w, Float.mul w (Float.Fin (1 # (10 ^ 9)))) (DA.coords_w watts_absorbed) in
  let joules_per_photon :=
    DA.map (λ w, Float.div (Float.mul (Float.Fin h) (Float.Fin c)) w) wavelength_meters in
  let abs_rate := DA.binop Float.div watts_absorbed joules_per_photon in
  let abs_rate := DA.set_name "absorption_rate" abs_rate in
  let abs_rate := DA.set_attr "long_name" "Absorption rate" abs_rate in
  let abs_rate := DA.set_attr "units" "photons/s/fluorophore" abs_rate in
  Ok abs_rate.

End OpticalConfig.

(** ** Lookup in FPbase and the string form *)

Section FromFPbase.
Context `{Remote}.

(** [LightSource.from_fpbase] *)
Definition LightSource_from_fpbase (light : SpectrumOwner FPSpectrum)
  : LightSource Spectrum :=
  mkLightSource (so_name light) (Spectrum_from_fpbase (so_spectrum light)) None.

(** The text of the error of a lookup that finds no configuration. *)
Definition not_found_message (config_name microscope_id : string)
    (fpbase_scope : FPbaseMicroscope FPSpectrum FPFilter) : string :=
  "Could not find config named " +:+ Str.repr config_name +:+
  " in FPbase microscope " +:+ Str.repr microscope_id +:+
  ". Available names: " +:+
  Str.join ", " ((λ c, Str.repr (cfg_name c)) <$> opticalConfigs fpbase_scope).

(** The loop of [from_fpbase] over the configurations of the microscope:
    the first one whose lowered name is the lowered [config_name]. *)
Fixpoint from_fpbase_loop (config_name : string)
    (cfgs : list (FPbaseOpticalConfig FPSpectrum FPFilter))
  : option (OpticalConfig Spectrum) :=
  match cfgs with
  | [] => None
  | cfg :: cfgs' =>
      if String.eqb (Str.lower (cfg_name cfg)) (Str.lower config_name) then
        let lights :=
          match cfg_light cfg with
          | Some light => [LightSource_from_fpbase light]
          | None => []
          end in
        Some (mkOpticalConfig (cfg_name cfg)
                (SpectrumFilter_from_fpbase <$> cfg_filters cfg) lights None)
      else from_fpbase_loop config_name cfgs'
  end.

Definition from_fpbase (microscope_id : string) (config_name : option string)
  : result (OpticalConfig Spectrum) :=
  ids ←
    match config_name with
    | None =>
        if negb (Str.contains "::" microscope_id) then
          Err (ValueError
                 "If config_name is not provided, microscope_id must be in the form 'scope::config'")
        else
          match Str.split "::" microscope_id with
          | [microscope_id; config_name] => Ok (microscope_id, config_name)
          | _ => Err (ValueError "too many values to unpack (expected 2)")
          end
    | Some config_name => Ok (microscope_id, config_name)
    end;
  let microscope_id := ids.1 in
  let config_name := ids.2 in
  fpbase_scope ← get_microscope microscope_id;
  match from_fpbase_loop config_name (opticalConfigs fpbase_scope) with
  | Some cfg => Ok cfg
  | None => Err (ValueError (not_found_message config_name microscope_id fpbase_scope))
  end.

Context `{!Validation}.

(** What a model can be built from: a string or the fields of a model. *)
Inductive Any :=
  | AnyStr (s : string)
  | AnyDict (d : Dict).

(** The validator that runs before the fields are validated. *)
Definition _vmodel (value : Any) : result Any :=
  match value with
  | AnyStr value =>
      if negb (Str.contains "::" value) then
        Err (ValueError
               "If OpticalConfig is provided as a string, it must be in the form 'fpbase_scope_id::config_name'")
      else
        cfg ← from_fpbase value None;
        Ok (AnyDict (model_dump cfg))
  | _ => Ok value
  end.

(** Building an [OpticalConfig] from a value: the validator above, then
    the validation of the fields; a [ValueError] of the validator comes
    out as a validation error. *)
Definition model_validate (value : Any) : result (OpticalConfig Spectrum) :=
  match _vmodel value with
  | Ok (AnyDict d) => validate_fields d
  | Ok (AnyStr _) => Err (ValidationError (ValueError "Input should be a valid dictionary"))
  | Err (ValueError msg) => Err (ValidationError (ValueError msg))
  | Err e => Err e
  end.

End FromFPbase.

(** ** Notions used in the statements *)

Section Notions.
Context `{Optics}.

Implicit Types (f : Filter Spectrum) (self : OpticalConfig Spectrum).

(** What one filter adds to the excitation path. *)
Definition excitation_part f : list (Filter Spectrum) :=
  match placement f with
  | EX_PATH | BS_INV | ALL => [f]
  | BS => [inverted f]
  | EM_PATH => []
  end.

(** What one filter adds to the emission path. *)
Definition emission_part f : list (Filter Spectrum) :=
  match placement f with
  | EM_PATH | BS | ALL => [f]
  | BS_INV => [inverted f]
  | EX_PATH => []
  end.

(** The result policy for one path: [contributors] are the filters that
    contribute to it, [result] is the derived property. *)
Definition merge_policy self (path : string) (contributors : list (Filter Spectrum))
    (result : option (Filter Spectrum)) : Prop :=
  (contributors = [] → result = None)
  ∧ (∀ f, contributors = [f] → result = Some f)
  ∧ (∀ f0 f1 rest, contributors = f0 :: f1 :: rest →
       ∃ merged, result = Some merged
         ∧ f_name merged = "Effective " +:+ path +:+ " for " +:+ name self
         ∧ spectrum merged
           = fold_left smul (spectrum <$> (f1 :: rest)) (spectrum f0)).

(** The product of a list of spectra taken in list order, from the first
    one on, if there is any. *)
Definition fold_product (l : list Spectrum) : option Spectrum :=
  match l with
  | [] => None
  | s0 :: rest => Some (fold_left smul rest s0)
  end.

(** The product of a list of spectra, if there is any. *)
Definition product (l : list Spectrum) : option Spectrum :=
  foldr (λ s acc, Some (from_option (smul s) s acc)) None l.

Definition no_illumination : exception :=
  ValueError "This Optical Config has no illumination spectrum.".

(** The configuration with another value in its [power] field. *)
Definition with_power self (p : option Q) : OpticalConfig Spectrum :=
  mkOpticalConfig (name self) (filters self) (lights self) p.

(** The energy of a photon of wavelength [w] nanometers: h c / (w 1e-9). *)
Definition photon_energy (w : Q) : Float.t :=
  Float.div (Float.mul (Float.Fin h) (Float.Fin c))
    (Float.mul (Float.Fin w) (Float.Fin (1 # (10 ^ 9)))).

(** The photons absorbed per second at the wavelength of [w] nanometers,
    where the irradiance is [i] and the absorption cross section is [x]:
    i x / (h c / (w 1e-9)). *)
Definition photons_absorbed (w : Q) (i x : Float.t) : Float.t :=
  Float.div (Float.mul i x)
    (Float.div (Float.mul (Float.Fin h) (Float.Fin c))
       (Float.mul (Float.Fin w) (Float.Fin (1 # (10 ^ 9))))).

(** No two entries of an array carry the same label with two values. *)
Definition unique_labels (d : list (Q * Float.t)) : Prop :=
  ∀ p q, p ∈ d → q ∈ d → (p.1 == q.1)%Q → p = q.

End Notions.

Section RemoteNotions.
Context `{Remote}.

Implicit Types (cfg : FPbaseOpticalConfig FPSpectrum FPFilter).

(** The configuration that [from_fpbase] builds from a record. *)
Definition from_record cfg : OpticalConfig Spectrum :=
  mkOpticalConfig (cfg_name cfg) (SpectrumFilter_from_fpbase <$> cfg_filters cfg)
    match cfg_light cfg with
    | Some light => [LightSource_from_fpbase light]
    | None => []
    end
    None.

(** The name of the record is [config_name], letter case apart. *)
Definition matches (config_name : string) cfg : Prop :=
  Str.lower (cfg_name cfg) = Str.lower config_name.

End RemoteNotions.

Section TextNotions.

(** A text of printable characters without quote and backslash. *)
Definition plain_char (a : ascii) : bool :=
  Str.printable (Str.code a) && negb (Ascii.eqb a Str.squote)
  && negb (Ascii.eqb a Str.dquote) && negb (Ascii.eqb a Str.backslash).

Fixpoint plain (s : string) : bool :=
  match s with
  | EmptyString => true
  | String a s' => plain_char a && plain s'
  end.

Definition colon : ascii := ascii_of_nat 58.

End TextNotions.

(** ** A concrete setting

    Spectra sampled on one shared grid of wavelengths, 500 nm onwards in
    steps of 1 nm: a spectrum is the list of its intensities. *)

Module Sampled.

Definition mul (a b : list Q) : list Q := zip_with Qmult a b.

Definition to_xarray (s : list Q) : DataArray :=
  mkDataArray None ∅ (imap (λ i x, (inject_Z (500 + Z.of_nat i), Float.Fin x)) s).

Definition invert (f : Filter (list Q)) : Filter (list Q) :=
  mkFilter (f_name f) (placement f) ((λ x, 1 - x)%Q <$> spectrum f).

#[export] Instance optics : Optics := {|
  Spectrum := list Q;
  smul := mul;
  as_xarray := to_xarray;
  inverted := invert;
  default_placement := ALL
|}.

Definition dichroic : Filter Spectrum := mkFilter "dichroic" BS [0; 1]%Q.
Definition dichroic_inv : Filter Spectrum := mkFilter "dichroic" BS_INV [1; 0]%Q.
Definition exciter : Filter Spectrum := mkFilter "exciter" EX_PATH [1; 0]%Q.
Definition emitter : Filter Spectrum := mkFilter "emitter" EM_PATH [0; 1]%Q.
Definition blocker : Filter Spectrum := mkFilter "blocker" EX_PATH [0; 1]%Q.
Definition laser500 : LightSource Spectrum := mkLightSource "500nm Laser" [1; 0]%Q None.
Definition lamp : LightSource Spectrum := mkLightSource "lamp" [1 # 2; 1 # 2]%Q None.

(** A beamsplitter alone, and an inverted beamsplitter alone. *)
Definition bs_only : OpticalConfig Spectrum := mkOpticalConfig "BS" [dichroic] [] None.
Definition bs_inv_only : OpticalConfig Spectrum :=
  mkOpticalConfig "BS_INV" [dichroic_inv] [] None.

(** A full channel, one with an inverted beamsplitter, one whose exciter
    blocks the laser line, and one with nothing in it. *)
Definition channel : OpticalConfig Spectrum :=
  mkOpticalConfig "FITC" [exciter; dichroic; emitter] [lamp; laser500] (Some 1%Q).
Definition channel_inv : OpticalConfig Spectrum :=
  mkOpticalConfig "FITC" [exciter; dichroic_inv; emitter] [lamp; laser500] None.
Definition dark : OpticalConfig Spectrum :=
  mkOpticalConfig "dark" [blocker] [laser500] None.
Definition empty : OpticalConfig Spectrum := mkOpticalConfig "empty" [] [] None.

(** A channel around a beamsplitter that passes a quarter and a half, and
    the same channel with that filter placed as an inverted beamsplitter. *)
Definition wide_exciter : Filter Spectrum := mkFilter "wide exciter" EX_PATH [1; 1 # 2]%Q.
Definition wide_emitter : Filter Spectrum := mkFilter "wide emitter" EM_PATH [1 # 2; 1]%Q.
Definition half_mirror : Filter Spectrum := mkFilter "half mirror" BS [1 # 4; 1 # 2]%Q.
Definition half_mirror_inv : Filter Spectrum :=
  mkFilter "half mirror" BS_INV [1 # 4; 1 # 2]%Q.
Definition split_channel : OpticalConfig Spectrum :=
  mkOpticalConfig "split" [wide_exciter; half_mirror; wide_emitter] [] None.
Definition split_channel_inv : OpticalConfig Spectrum :=
  mkOpticalConfig "split" [wide_exciter; half_mirror_inv; wide_emitter] [] None.

(** Two exciters, and the same filters in another order. *)
Definition doubled : OpticalConfig Spectrum :=
  mkOpticalConfig "FITC" [exciter; dichroic; exciter; emitter] [lamp; laser500] (Some 1%Q).
Definition doubled_permuted : OpticalConfig Spectrum :=
  mkOpticalConfig "FITC" [emitter; dichroic; exciter; exciter] [lamp; laser500] (Some 1%Q).

(** The configuration that the record [green] below is turned into. *)
Definition green_config : OpticalConfig Spectrum :=
  mkOpticalConfig "Widefield Green" [dichroic; emitter] [laser500] None.

Definition dye : Fluorophore :=
  mkFluorophore (mkDataArray None ∅ [(500 # 1, Float.Fin (1 # 10 ^ 16))]).

(** A microscope of the database, with three configurations. *)
Definition green : FPbaseOpticalConfig (list Q) (Filter (list Q)) :=
  mkFPbaseOpticalConfig _ _ "Widefield Green"
    (Some (mkSpectrumOwner _ "500nm Laser" [1; 0]%Q)) [dichroic; emitter].

Definition odd : FPbaseOpticalConfig (list Q) (Filter (list Q)) :=
  mkFPbaseOpticalConfig _ _ "a\b" None [].

Definition nested : FPbaseOpticalConfig (list Q) (Filter (list Q)) :=
  mkFPbaseOpticalConfig _ _ "TIRF::488" None [exciter].

Definition scopeX : FPbaseMicroscope (list Q) (Filter (list Q)) :=
  mkFPbaseMicroscope _ _ [green; odd; nested].

#[export] Instance remote : Remote := {|
  FPSpectrum := list Q;
  FPFilter := Filter (list Q);
  Spectrum_from_fpbase := id;
  SpectrumFilter_from_fpbase := id;
  get_microscope := λ microscope_id,
    if String.eqb microscope_id "scopeX" then Ok scopeX
    else Err (ExternalError "microscope not found")
|}.

#[export] Instance validation : Validation := {|
  Dict := OpticalConfig (list Q);
  model_dump := id;
  validate_fields := Ok
|}.

End Sampled.

(** ** The other operations of [config.py] *)

(** [spectrum.py] and the text of a number in an f-string: the constructor
    [Spectrum(wavelength=..., intensity=...)] and [str] of a number. *)
Class Builders `{Optics} := {
  Spectrum_make : list Q → list Q → Spectrum;
  format_number : Q → string
}.

Section Laser.
Context `{Builders}.

(** [LightSource.laser] *)
Definition laser (wavelength : Q) (power : option Q) : LightSource Spectrum :=
  mkLightSource (format_number wavelength +:+ "nm Laser")
    (Spectrum_make [wavelength] [1%Q]) power.

End Laser.

(** [placement.name]: the name of the member of the enumeration. *)
Definition Placement_name (p : Placement) : string :=
  match p with
  | EX_PATH => "EX_PATH"
  | EM_PATH => "EM_PATH"
  | BS => "BS"
  | BS_INV => "BS_INV"
  | ALL => "ALL"
  end.

(** The array of [all_spectra]: the arrays stacked along the dimension
    "spectra", in order, and the labels of that dimension. How the array
    library aligns the stacked arrays on their wavelength axis is not part
    of this value. *)
Record Stacked := mkStacked {
  rows : list DataArray;
  spectra : list string
}.

(** [xr.concat(data, dim="spectra")], which refuses an empty list; the
    labels of each array are taken to be distinct, as for the binary
    operations, so that the arrays can be aligned. *)
Definition concat (data : list DataArray) : result Stacked :=
  match data with
  | [] => Err (ValueError "must supply at least one object to concatenate")
  | _ => Ok (mkStacked data [])
  end.

(** [da.coords.update({"spectra": coords})]: one label for each stacked
    array. *)
Definition coords_update (da : Stacked) (coords : list string) : result Stacked :=
  if length coords =? length (rows da) then Ok (mkStacked (rows da) coords)
  else Err (ValueError "conflicting sizes for dimension 'spectra'").

Section AllSpectra.
Context `{Optics}.

Implicit Types (self : OpticalConfig Spectrum).

(** One turn of the loop of [all_spectra] over the filters; the state is
    the pair of the lists [data] and [coords]. *)
Definition all_spectra_filter (st : list DataArray * list string) (filt : Filter Spectrum)
  : list DataArray * list string :=
  (st.1 ++ [as_xarray (spectrum filt)],
   st.2 ++ [f_name filt +:+ " (" +:+ Placement_name (placement filt) +:+ ")"]).

(** One turn of the loop over the lights. *)
Definition all_spectra_light (st : list DataArray * list string) (light : LightSource Spectrum)
  : list DataArray * list string :=
  (st.1 ++ [as_xarray (ls_spectrum light)], st.2 ++ [ls_name light]).

Definition all_spectra self : result Stacked :=
  let st := fold_left all_spectra_filter (filters self) ([], []) in
  let st := fold_left all_spectra_light (lights self) st in
  da ← concat st.1;
  coords_update da st.2.

(** [__str__] *)
Definition __str__ self : string := name self.

End AllSpectra.

(** The frame of a caller, as [inspect.stack()[1]] gives it. *)
Record FrameInfo := mkFrameInfo {
  filename : string;
  function : string
}.

(** An [OpticalConfig] object: its identity [id(self)] and its fields. *)
Record Object (Spectrum : Type) := mkObject {
  id_of : Z;
  fields : OpticalConfig Spectrum
}.
Arguments mkObject {Spectrum} _ _.
Arguments id_of {Spectrum} _.
Arguments fields {Spectrum} _.

(** A hashable value that a configuration is compared with: a string, a
    configuration, or another value, given by its hash. *)
Inductive Value (Spectrum : Type) :=
  | VStr (s : string)
  | VConfig (o : Object Spectrum)
  | VHashable (h : Z).
Arguments VStr {Spectrum} s.
Arguments VConfig {Spectrum} o.
Arguments VHashable {Spectrum} h.

(** The interpreter and the base class: the hash of a string, the path of
    the file [config.py] (the file name of the frames of its functions),
    and the equality of the base model, [super().__eq__]. *)
Class Runtime `{Optics} := {
  str_hash : string → Z;
  config_file : string;
  base_eq : Object Spectrum → Value Spectrum → bool
}.

Section Identity.
Context `{Runtime}.

Implicit Types (self : Object Spectrum) (value : Value Spectrum) (frame : FrameInfo).

(** The test that both methods make on the frame of their caller. *)
Definition in_get_loc frame : bool :=
  Str.contains "pandas" (filename frame) && String.eqb (function frame) "get_loc".

(** [__hash__], called from [frame]. *)
Definition __hash__ frame self : Z :=
  if in_get_loc frame then str_hash (name (fields self)) else id_of self.

(** [hash(value)], called from [frame]. *)
Definition hash frame value : Z :=
  match value with
  | VStr s => str_hash s
  | VConfig o => __hash__ frame o
  | VHashable h => h
  end.

(** The frame of [__eq__] itself, from which it calls [hash]. *)
Definition eq_frame : FrameInfo := mkFrameInfo config_file "__eq__".

(** [__eq__], called from [frame]. *)
Definition __eq__ frame self value : bool :=
  if in_get_loc frame then
    Z.eqb (hash eq_frame (VStr (name (fields self)))) (hash eq_frame value)
  else base_eq self value.

End Identity.

(** The sampled setting, continued. *)
Module SampledRuntime.
Import Sampled.

#[export] Instance runtime : Runtime := {|
  str_hash := λ s, Z.of_nat (String.length s);
  config_file := "/site-packages/microsim/schema/optical_config/config.py";
  base_eq := λ o v,
    match v with
    | VConfig o' => bool_decide (name (fields o) = name (fields o'))
    | _ => false
    end
|}.

Definition get_loc_frame : FrameInfo :=
  mkFrameInfo "/site-packages/pandas/core/indexes/base.py" "get_loc".

Definition fitc : Object Spectrum := mkObject 140001 channel.
Definition fitc_again : Object Spectrum := mkObject 140002 channel.

(** A lamp twice as bright as [lamp], and [channel] under it. *)
Definition bright_lamp : LightSource Spectrum := mkLightSource "lamp" [1; 1]%Q None.
Definition bright_channel : OpticalConfig Spectrum :=
  mkOpticalConfig "FITC" [exciter; dichroic; emitter] [bright_lamp] None.
Definition lamp_channel : OpticalConfig Spectrum :=
  mkOpticalConfig "FITC" [exciter; dichroic; emitter] [lamp] None.

(** An emitter alone, and an object that sits where the hash of "FITC"
    points. *)
Definition emitter_only : OpticalConfig Spectrum :=
  mkOpticalConfig "emitter" [emitter] [] None.
Definition unrelated : Object Spectrum := mkObject 4 empty.

(** [channel] with one more exciter at the end, without its emitter, and
    under another name. *)
Definition channel_blocked : OpticalConfig Spectrum :=
  mkOpticalConfig "FITC" [exciter; dichroic; emitter; blocker] [lamp; laser500]
    (Some 1%Q).
Definition channel_no_emitter : OpticalConfig Spectrum :=
  mkOpticalConfig "FITC" [exciter; dichroic] [lamp; laser500] (Some 1%Q).
Definition channel_renamed : OpticalConfig Spectrum :=
  mkOpticalConfig "Cy5" [exciter; dichroic; emitter] [lamp; laser500] None.

(** The lights of [doubled] in the other order, and its filters permuted. *)
Definition doubled_lights_permuted : OpticalConfig Spectrum :=
  mkOpticalConfig "FITC" [emitter; dichroic; exciter; exciter] [laser500; lamp] (Some 1%Q).

End SampledRuntime.

(** A second setting: a spectrum is the list of its pairs of a wavelength
    and an intensity, as the constructor of [Spectrum] takes them. *)
Module Pairs.

Definition at_wavelength (w : Q) (s : list (Q * Q)) : option Q :=
  snd <$> find (λ p, Qeq_bool p.1 w) s.

Definition mul (a b : list (Q * Q)) : list (Q * Q) :=
  omap (λ p, (λ y, (p.1, (p.2 * y)%Q)) <$> at_wavelength p.1 b) a.

Definition to_xarray (s : list (Q * Q)) : DataArray :=
  mkDataArray None ∅ (prod_map id Float.Fin <$> s).

Definition invert (f : Filter (list (Q * Q))) : Filter (list (Q * Q)) :=
  mkFilter (f_name f) (placement f) (prod_map id (λ x, 1 - x)%Q <$> spectrum f).

#[export] Instance optics : Optics := {|
  Spectrum := list (Q * Q);
  smul := mul;
  as_xarray := to_xarray;
  inverted := invert;
  default_placement := ALL
|}.

#[export] Instance builders : Builders := {|
  Spectrum_make := λ wavelength intensity, zip wavelength intensity;
  format_number := λ q, if Qeq_bool q 488 then "488" else "?"
|}.

(** A laser of 488 nm and an emission filter. *)
Definition laser_only : OpticalConfig Spectrum :=
  mkOpticalConfig "laser"
    [mkFilter "emitter" EM_PATH [(488 # 1, 0); (520 # 1, 1)]%Q]
    [laser 488 (Some 2%Q)] None.

End Pairs.

(** * Properties *)

(** ** Evaluations

    The texts, the numbers and the sampled configurations, run on small
    inputs. *)

Section Evaluations.
Import Sampled.

Example lower_mixed_case : Str.lower "Widefield GFP" = "widefield gfp".
Proof. reflexivity. Qed.

Example repr_backslash : Str.repr "a\b" = "'a\\b'".
Proof. reflexivity. Qed.

Example repr_apostrophe :
  Str.repr "it's" = String Str.dquote ("it's" +:+ String Str.dquote EmptyString).
Proof. reflexivity. Qed.

Example repr_newline : Str.repr (String (ascii_of_nat 10) "x") = "'\nx'".
Proof. reflexivity. Qed.

Example split_two : Str.split "::" "scope::config" = ["scope"; "config"].
Proof. reflexivity. Qed.

Example split_three : Str.split "::" "a::b::c" = ["a"; "b"; "c"].
Proof. reflexivity. Qed.

Example split_three_colons : Str.split "::" "a:::b" = ["a"; ":b"].
Proof. reflexivity. Qed.

Example div_zero_by_zero : Float.div (Float.Fin 0) (Float.Fin 0) = Float.NaN.
Proof. reflexivity. Qed.

Example div_by_zero : Float.div (Float.Fin 1) (Float.Fin 0) = Float.PInf.
Proof. reflexivity. Qed.

Example div_by_infinity : Float.div (Float.Fin 1) Float.PInf = Float.Fin 0.
Proof. reflexivity. Qed.

(** A sum leaves out what is not a number, and a sum of nothing but such
    values is zero. *)
Example sum_skips_nan :
  DA.sum (mkDataArray None ∅ [(500 # 1, Float.NaN); (501 # 1, Float.Fin 1)])
  = Float.Fin 1.
Proof. reflexivity. Qed.

Example sum_all_nan :
  DA.sum (mkDataArray None ∅ [(500 # 1, Float.NaN); (501 # 1, Float.NaN)])
  = Float.Fin 0.
Proof. reflexivity. Qed.

Example sum_of_infinities :
  DA.sum (mkDataArray None ∅ [(500 # 1, Float.PInf); (501 # 1, Float.NInf)])
  = Float.NaN.
Proof. reflexivity. Qed.

(** Dividing by the sum leaves a value that is not a number as it is and
    scales the others. *)
Example normalize_around_nan :
  let a := mkDataArray None ∅ [(500 # 1, Float.NaN); (501 # 1, Float.Fin 2)] in
  data (DA.map (λ x, Float.div x (DA.sum a)) a)
  = [(500 # 1, Float.NaN); (501 # 1, Float.Fin (2 / 2))].
Proof. reflexivity. Qed.

Example channel_excitation :
  excitation channel
  = Some (mkFilter "Effective excitation for FITC" ALL [1; 0]%Q).
Proof. reflexivity. Qed.

Example channel_emission :
  emission channel
  = Some (mkFilter "Effective emission for FITC" ALL [0; 1]%Q).
Proof. reflexivity. Qed.

Example dark_illumination : illumination dark = Some [0; 0]%Q.
Proof. reflexivity. Qed.

Example dark_irradiance :
  match irradiance dark with
  | Ok irrad => data irrad
  | Err _ => []
  end = [(500 # 1, Float.NaN); (501 # 1, Float.NaN)].
Proof. reflexivity. Qed.

Example dark_irradiance_sum :
  match irradiance dark with
  | Ok irrad => DA.sum irrad
  | Err _ => Float.NaN
  end = Float.Fin 0.
Proof. reflexivity. Qed.

(** The irradiance of [channel] is 1 in the bin of 500 nm, where [dye] has
    a cross section of 1e-16 cm^2. *)
Example channel_absorption_rate :
  ∃ rate v, absorption_rate channel dye = Ok rate
    ∧ data rate = [(500 # 1, v)]
    ∧ Float.is_num v ((1 # 10 ^ 16) / (h * c / (500 * (1 # 10 ^ 9))))%Q.
Proof.
  do 2 eexists. split; [reflexivity |]. split; [reflexivity |].
  eexists. split; [vm_compute; reflexivity | vm_compute; reflexivity].
Qed.

Example lookup_missing :
  from_fpbase "scopeX" (Some "missing")
  = Err (ValueError
           "Could not find config named 'missing' in FPbase microscope 'scopeX'. Available names: 'Widefield Green', 'a\\b', 'TIRF::488'").
Proof. reflexivity. Qed.

Example lookup_other_case :
  from_fpbase "scopeX" (Some "widefield green") = Ok green_config.
Proof. reflexivity. Qed.

Example string_form_three_pieces :
  model_validate (AnyStr "scopeX::TIRF::488")
  = Err (ValidationError (ValueError "too many values to unpack (expected 2)")).
Proof. reflexivity. Qed.

End Evaluations.

(** ** The contributors of a path *)

Section Contributors.
Context `{Optics}.

Implicit Types (f : Filter Spectrum) (fs : list (Filter Spectrum))
  (self : OpticalConfig Spectrum).

Lemma excitation_step_part acc f :
  excitation_step acc f = acc ++ excitation_part f.
Proof.
  unfold excitation_step, excitation_part, placement_in.
  destruct (placement f); vm_compute bool_decide; cbn; by rewrite ?app_nil_r.
Qed.

Lemma emission_step_part acc f :
  emission_step acc f = acc ++ emission_part f.
Proof.
  unfold emission_step, emission_part, placement_in.
  destruct (placement f); vm_compute bool_decide; cbn; by rewrite ?app_nil_r.
Qed.

Lemma fold_left_parts {A B} (step : list B → A → list B) (part : A → list B) :
  (∀ acc a, step acc a = acc ++ part a) →
  ∀ l acc, fold_left step l acc = acc ++ (l ≫= part).
Proof.
  intros Hstep l. induction l as [|a l IH]; intros acc; cbn.
  - by rewrite app_nil_r.
  - by rewrite IH, Hstep, <- app_assoc.
Qed.

Lemma excitation_filters_bind fs :
  excitation_filters fs = fs ≫= excitation_part.
Proof. apply (fold_left_parts _ _ excitation_step_part fs []). Qed.

Lemma emission_filters_bind fs :
  emission_filters fs = fs ≫= emission_part.
Proof. apply (fold_left_parts _ _ emission_step_part fs []). Qed.

Lemma excitation_filters_app fs1 fs2 :
  excitation_filters (fs1 ++ fs2) = excitation_filters fs1 ++ excitation_filters fs2.
Proof. rewrite !excitation_filters_bind. apply bind_app. Qed.

Lemma emission_filters_app fs1 fs2 :
  emission_filters (fs1 ++ fs2) = emission_filters fs1 ++ emission_filters fs2.
Proof. rewrite !emission_filters_bind. apply bind_app. Qed.

Lemma excitation_filters_cons f fs :
  excitation_filters (f :: fs) = excitation_part f ++ excitation_filters fs.
Proof. by rewrite !excitation_filters_bind. Qed.

Lemma emission_filters_cons f fs :
  emission_filters (f :: fs) = emission_part f ++ emission_filters fs.
Proof. by rewrite !emission_filters_bind. Qed.

(** Both contributor lists of a filter list that is given by [Hfs], around
    a filter whose placement is given by [Hp]. *)
Ltac by_parts Hfs Hp :=
  rewrite Hfs, ?excitation_filters_app, ?emission_filters_app,
    !excitation_filters_cons, !emission_filters_cons;
  unfold excitation_part, emission_part; by rewrite Hp.

Lemma fold_left_spectra (l : list (Filter Spectrum)) (acc : Spectrum) :
  fold_left (λ effective_spectrum filt, smul effective_spectrum (spectrum filt)) l acc
  = fold_left smul (spectrum <$> l) acc.
Proof. revert acc. induction l as [|a l IH]; intros acc; cbn; [done | apply IH]. Qed.

(** The spectrum of a merged path is the product of the spectra of its
    contributors, in their order. *)
Lemma _merge_fold_product self fs path :
  spectrum <$> _merge self fs path = fold_product (spectrum <$> fs).
Proof.
  destruct fs as [|f0 [|f1 rest]]; [done.. |].
  cbn [_merge SpectrumFilter spectrum fmap option_fmap option_map].
  by rewrite fold_left_spectra.
Qed.

Lemma excitation_fold_product self :
  spectrum <$> excitation self
  = fold_product (spectrum <$> (filters self ≫= excitation_part)).
Proof. unfold excitation. by rewrite _merge_fold_product, excitation_filters_bind. Qed.

Lemma emission_fold_product self :
  spectrum <$> emission self
  = fold_product (spectrum <$> (filters self ≫= emission_part)).
Proof. unfold emission. by rewrite _merge_fold_product, emission_filters_bind. Qed.

Lemma spectra_around (part : Filter Spectrum → list (Filter Spectrum)) pre f g post :
  part f = [g] →
  spectrum <$> ((pre ++ f :: post) ≫= part)
  = (spectrum <$> (pre ≫= part)) ++ spectrum g :: (spectrum <$> (post ≫= part)).
Proof. intros Hf. by rewrite bind_app, bind_cons, Hf, fmap_app. Qed.

(** The spectrum of a path around one filter of the list given by [Hfs],
    whose placement is given by [Hp]. *)
Ltac around Hfs Hp :=
  rewrite ?excitation_fold_product, ?emission_fold_product, Hfs;
  f_equal; apply spectra_around;
  unfold excitation_part, emission_part; by rewrite Hp.

(** C1. A beamsplitter (BS) at any place of the filter list enters the
    excitation contributors as its [inverted()] filter and the emission
    contributors as itself, and so the results: the excitation spectrum
    is the product, in list order, of the spectra that the filters before
    it add to the excitation path, the spectrum of its [inverted()], and
    the spectra that the filters after it add; the emission spectrum is
    that product around its own spectrum. An inverted beamsplitter
    (BS_INV) does the same with the two paths swapped. With that filter
    alone in the configuration, the excitation spectrum is the spectrum
    of [inverted()] and the emission spectrum is the filter's own
    spectrum for BS, and the two swap for BS_INV. *)
Theorem beamsplitter_inversion_law self :
  (∀ pre f post, filters self = pre ++ f :: post → placement f = BS →
     (excitation_filters (filters self)
        = excitation_filters pre ++ inverted f :: excitation_filters post
      ∧ emission_filters (filters self)
        = emission_filters pre ++ f :: emission_filters post)
     ∧ spectrum <$> excitation self
       = fold_product ((spectrum <$> (pre ≫= excitation_part))
                       ++ spectrum (inverted f)
                       :: (spectrum <$> (post ≫= excitation_part)))
     ∧ spectrum <$> emission self
       = fold_product ((spectrum <$> (pre ≫= emission_part))
                       ++ spectrum f
                       :: (spectrum <$> (post ≫= emission_part))))
  ∧ (∀ pre f post, filters self = pre ++ f :: post → placement f = BS_INV →
     (emission_filters (filters self)
        = emission_filters pre ++ inverted f :: emission_filters post
      ∧ excitation_filters (filters self)
        = excitation_filters pre ++ f :: excitation_filters post)
     ∧ spectrum <$> emission self
       = fold_product ((spectrum <$> (pre ≫= emission_part))
                       ++ spectrum (inverted f)
                       :: (spectrum <$> (post ≫= emission_part)))
     ∧ spectrum <$> excitation self
       = fold_product ((spectrum <$> (pre ≫= excitation_part))
                       ++ spectrum f
                       :: (spectrum <$> (post ≫= excitation_part))))
  ∧ (∀ f, filters self = [f] → placement f = BS →
     spectrum <$> excitation self = Some (spectrum (inverted f))
     ∧ spectrum <$> emission self = Some (spectrum f))
  ∧ (∀ f, filters self = [f] → placement f = BS_INV →
     spectrum <$> excitation self = Some (spectrum f)
     ∧ spectrum <$> emission self = Some (spectrum (inverted f))).
Proof.
  split; [| split; [| split]].
  - intros pre f post Hfs Hp. split; [by_parts Hfs Hp |].
    split; around Hfs Hp.
  - intros pre f post Hfs Hp. split; [by_parts Hfs Hp |].
    split; around Hfs Hp.
  - intros f Hfs Hp. unfold excitation, emission. by_parts Hfs Hp.
  - intros f Hfs Hp. unfold excitation, emission. by_parts Hfs Hp.
Qed.

End Contributors.

(** ** Merging the contributors *)

Section Merge.
Context `{Optics}.

Implicit Types (f : Filter Spectrum) (fs : list (Filter Spectrum))
  (self : OpticalConfig Spectrum).

Lemma fold_left_fmap {A B C} (g : C → B → C) (k : A → B) (l : list A) (acc : C) :
  fold_left (λ acc a, g acc (k a)) l acc = fold_left g (k <$> l) acc.
Proof. revert acc. induction l as [|a l IH]; intros acc; cbn; [done | apply IH]. Qed.

Lemma _merge_policy self path contributors :
  merge_policy self path contributors (_merge self contributors path).
Proof.
  split_and!.
  - by intros ->.
  - by intros f ->.
  - intros f0 f1 rest ->. eexists. split_and!; [done | done |].
    cbn [_merge SpectrumFilter spectrum]. apply fold_left_fmap.
Qed.

(** C2. For the excitation and for the emission path: no contributor
    gives [None]; a single contributor is returned as it is; two or more
    give a filter named "Effective {path} for {name}" whose spectrum is
    the product of the contributors' spectra, folded in list order. *)
Theorem merge_result_policy self :
  merge_policy self "excitation" (excitation_filters (filters self)) (excitation self)
  ∧ merge_policy self "emission" (emission_filters (filters self)) (emission self).
Proof. split; apply _merge_policy. Qed.

(** C3. With lights, the illumination is the product of their spectra,
    folded in list order from the first one, times the spectrum of the
    excitation filter when there is one; without lights it is the
    spectrum of the excitation filter, or [None] when there is none. *)
Theorem illumination_fold self :
  (∀ l0 rest, lights self = l0 :: rest →
     illumination self =
       let lit := fold_left smul (ls_spectrum <$> rest) (ls_spectrum l0) in
       Some (match excitation self with
             | Some exc => smul lit (spectrum exc)
             | None => lit
             end))
  ∧ (lights self = [] → illumination self = spectrum <$> excitation self).
Proof.
  split.
  - intros l0 rest Hl. unfold illumination. rewrite Hl. cbn zeta.
    rewrite <- fold_left_fmap.
    destruct rest as [|l1 rest]; by destruct (excitation self).
  - intros Hl. unfold illumination. rewrite Hl. by destruct (excitation self).
Qed.

End Merge.

(** ** Order of the filters *)

Section Order.
Context `{Optics}.
Context (Seq : relation Spectrum).
Context `{!Equivalence Seq} `{!Proper (Seq ==> Seq ==> Seq) smul}.
Hypothesis smul_comm : ∀ a b, Seq (smul a b) (smul b a).
Hypothesis smul_assoc : ∀ a b c, Seq (smul a (smul b c)) (smul (smul a b) c).

Implicit Types (f : Filter Spectrum) (fs : list (Filter Spectrum))
  (self : OpticalConfig Spectrum).

#[local] Instance from_option_smul_proper :
  Proper (Seq ==> option_Forall2 Seq ==> Seq) (λ s, from_option (smul s) s).
Proof. intros s s' Hs ? ? [a b Hab|]; cbn; [by rewrite Hs, Hab | done]. Qed.

Lemma product_cons s l :
  product (s :: l) = Some (from_option (smul s) s (product l)).
Proof. done. Qed.

Lemma product_Permutation l l' :
  l ≡ₚ l' → option_Forall2 Seq (product l) (product l').
Proof.
  induction 1 as [|s l l' _ IH|s t l|l1 l2 l3 _ IH1 _ IH2];
    rewrite ?product_cons.
  - constructor.
  - constructor. by apply from_option_smul_proper.
  - constructor. destruct (product l) as [r|]; cbn.
    + by rewrite !smul_assoc, (smul_comm t s).
    + apply smul_comm.
  - by etrans.
Qed.

Lemma fold_left_product l a :
  Seq (fold_left smul l a) (from_option (smul a) a (product l)).
Proof.
  revert a. induction l as [|s l IH]; intros a; [done |].
  rewrite product_cons. cbn [fold_left from_option].
  rewrite IH. destruct (product l) as [r|]; cbn; [by rewrite smul_assoc | done].
Qed.

Lemma _merge_product self path fs :
  option_Forall2 Seq (spectrum <$> _merge self fs path) (product (spectrum <$> fs)).
Proof.
  destruct fs as [|f0 [|f1 rest]]; [by constructor.. |].
  cbn [_merge SpectrumFilter spectrum fmap option_fmap option_map].
  rewrite fold_left_fmap, !fmap_cons, (product_cons (spectrum f0)).
  constructor. by rewrite fold_left_product.
Qed.

Lemma _merge_Permutation self self' path fs fs' :
  fs ≡ₚ fs' →
  option_Forall2 Seq (spectrum <$> _merge self fs path)
    (spectrum <$> _merge self' fs' path).
Proof.
  intros Hp. etrans; [apply _merge_product |].
  etrans; [apply product_Permutation, fmap_Permutation, Hp |].
  symmetry. apply _merge_product.
Qed.

(** C7. When the product of spectra is commutative and associative for
    the spectral equality [Seq], a configuration whose filter list is
    permuted has the same excitation spectrum and the same emission
    spectrum, up to [Seq]. *)
Theorem merge_order_independent self fs' :
  filters self ≡ₚ fs' →
  let self' := mkOpticalConfig (name self) fs' (lights self) (power self) in
  option_Forall2 Seq (spectrum <$> excitation self) (spectrum <$> excitation self')
  ∧ option_Forall2 Seq (spectrum <$> emission self) (spectrum <$> emission self').
Proof.
  intros Hp self'. split; apply _merge_Permutation; cbn [filters].
  - rewrite !excitation_filters_bind. by apply bind_Permutation.
  - rewrite !emission_filters_bind. by apply bind_Permutation.
Qed.

End Order.

(** ** Sums of values *)

Section FloatSums.

Lemma add_not_fin_l x y : ¬ Float.is_fin x → ¬ Float.is_fin (Float.add x y).
Proof.
  intros Hx [q Hq]. destruct x, y; try discriminate; apply Hx; by eexists.
Qed.

Lemma fold_add_not_fin l x :
  ¬ Float.is_fin x → ¬ Float.is_fin (fold_left Float.add l x).
Proof.
  revert x. induction l as [|y l IH]; intros x Hx; cbn; [done |].
  by apply IH, add_not_fin_l.
Qed.

(** A finite sum has finite terms only, and is their sum. *)
Lemma fold_add_fin l a t :
  fold_left Float.add l (Float.Fin a) = Float.Fin t →
  ∃ qs, l = Float.Fin <$> qs ∧ t = fold_left Qplus qs a.
Proof.
  revert a. induction l as [|y l IH]; intros a Ht; cbn in Ht.
  - exists []. split; [done | cbn; congruence].
  - destruct y as [q| | |].
    + destruct (IH _ Ht) as (qs & -> & ->). by exists (q :: qs).
    + exfalso. eapply (fold_add_not_fin l Float.PInf); [by intros [? ?] | by eexists].
    + exfalso. eapply (fold_add_not_fin l Float.NInf); [by intros [? ?] | by eexists].
    + exfalso. eapply (fold_add_not_fin l Float.NaN); [by intros [? ?] | by eexists].
Qed.

Lemma fold_add_Fin qs a :
  fold_left Float.add (Float.Fin <$> qs) (Float.Fin a) = Float.Fin (fold_left Qplus qs a).
Proof. revert a. induction qs as [|q qs IH]; intros a; cbn; [done | apply IH]. Qed.

Lemma fold_Qplus_proper l u v :
  (u == v)%Q → (fold_left Qplus l u == fold_left Qplus l v)%Q.
Proof.
  revert u v. induction l as [|x l IH]; intros u v Huv; cbn; [done |].
  apply IH. by rewrite Huv.
Qed.

Lemma fold_Qplus_div qs a t :
  (fold_left Qplus ((λ q, q / t) <$> qs) (a / t) == fold_left Qplus qs a / t)%Q.
Proof.
  revert a. induction qs as [|q qs IH]; intros a; cbn; [reflexivity |].
  rewrite <- IH. apply fold_Qplus_proper. unfold Qdiv. ring.
Qed.

Lemma div_Fin_nonzero q t :
  ¬ (t == 0)%Q → Float.div (Float.Fin q) (Float.Fin t) = Float.Fin (q / t).
Proof.
  intros Ht. cbn. destruct (Qeq_bool t 0) eqn:E; [|done].
  by apply Qeq_bool_eq in E.
Qed.

Lemma skipna_cons v l :
  DA.skipna (v :: l) = if Float.is_nan v then DA.skipna l else v :: DA.skipna l.
Proof. by destruct v. Qed.

Lemma skipna_Fin qs : DA.skipna (Float.Fin <$> qs) = Float.Fin <$> qs.
Proof. induction qs as [|q qs IH]; cbn; [done | by f_equal]. Qed.

(** When the values left by [skipna] are finite, every value is finite or
    [NaN]. *)
Lemma skipna_finite l qs :
  DA.skipna l = Float.Fin <$> qs →
  Forall (λ v, v = Float.NaN ∨ Float.is_fin v) l.
Proof.
  revert qs. induction l as [|v l IH]; intros qs Hl; [done |].
  destruct v as [q| | |]; cbn in Hl.
  - destruct qs as [|q' qs]; [done |]. injection Hl as _ Hl.
    constructor; [right; by eexists | by eapply IH].
  - by destruct qs.
  - by destruct qs.
  - constructor; [by left | by eapply IH].
Qed.

(** Division by a finite non-zero number keeps [NaN] values apart from the
    others. *)
Lemma skipna_div l t :
  ¬ (t == 0)%Q →
  Forall (λ v, v = Float.NaN ∨ Float.is_fin v) l →
  DA.skipna ((λ x, Float.div x (Float.Fin t)) <$> l)
  = (λ x, Float.div x (Float.Fin t)) <$> DA.skipna l.
Proof.
  intros Ht. induction 1 as [|v l [-> | [q ->]] _ IH]; [done | |].
  - rewrite fmap_cons, !skipna_cons. cbn. apply IH.
  - rewrite fmap_cons, !skipna_cons, div_Fin_nonzero by done.
    cbn [Float.is_nan]. by rewrite fmap_cons, div_Fin_nonzero, IH.
Qed.

(** A list of finite values has no [NaN] to leave out. *)
Lemma skipna_all_finite l :
  Forall Float.is_fin l → ∃ qs, l = Float.Fin <$> qs ∧ DA.skipna l = l.
Proof.
  induction 1 as [|v l [q ->] _ (qs & -> & IH)].
  - by exists [].
  - exists (q :: qs). split; [done |]. apply (skipna_Fin (q :: qs)).
Qed.

Lemma fold_Qplus_normalized qs t :
  t = fold_left Qplus qs 0%Q → ¬ (t == 0)%Q →
  (fold_left Qplus ((λ q, q / t)%Q <$> qs) 0 == 1)%Q.
Proof.
  intros Hq Ht.
  transitivity (fold_left Qplus ((λ q, q / t)%Q <$> qs) (0 / t)%Q).
  - apply fold_Qplus_proper. unfold Qdiv. ring.
  - rewrite fold_Qplus_div, <- Hq. by field.
Qed.

(** Dividing the values of a finite non-zero sum by that sum gives values
    that sum to one; the values that are [NaN] stay [NaN] and are left
    out of both sums. *)
Lemma sum_normalized (a : DataArray) t :
  DA.sum a = Float.Fin t → ¬ (t == 0)%Q →
  Float.is_num (DA.sum (DA.map (λ x, Float.div x (Float.Fin t)) a)) 1.
Proof.
  unfold DA.sum, DA.values. intros Hsum Ht.
  destruct (fold_add_fin _ _ _ Hsum) as (qs & Hqs & Hq).
  cbn [data DA.map].
  assert ((prod_map id (λ x, Float.div x (Float.Fin t)) <$> data a).*2
          = (λ x, Float.div x (Float.Fin t)) <$> (data a).*2) as ->.
  { rewrite <- !list_fmap_compose. by apply list_fmap_ext. }
  rewrite skipna_div, Hqs by eauto using skipna_finite.
  assert ((λ x, Float.div x (Float.Fin t)) <$> (Float.Fin <$> qs)
          = Float.Fin <$> ((λ q, q / t)%Q <$> qs)) as ->.
  { rewrite <- !list_fmap_compose. apply list_fmap_ext.
    intros i q _. cbn [compose]. by apply div_Fin_nonzero. }
  rewrite fold_add_Fin. eexists. split; [done |].
  by apply fold_Qplus_normalized.
Qed.

End FloatSums.

(** ** Irradiance and absorption rate *)

Section Irradiance.
Context `{Optics}.

Implicit Types (self : OpticalConfig Spectrum) (fluorophore : Fluorophore).

Lemma irradiance_with_power self p :
  irradiance (with_power self p) = irradiance self.
Proof. by destruct self. Qed.

Lemma irradiance_Some self illum :
  illumination self = Some illum →
  irradiance self =
    Ok (DA.set_attr "units" "W/cm^2"
          (DA.set_attr "long_name" "Irradiance"
             (DA.set_name "irradiance"
                (DA.map (λ x, Float.div x (DA.sum (as_xarray illum)))
                   (as_xarray illum))))).
Proof. unfold irradiance. by intros ->. Qed.

Lemma same_index_fmap (d : list (Q * Float.t)) (k : Q * Float.t → Q * Float.t) :
  (∀ p, (k p).1 = p.1) → DA.same_index d (k <$> d) = true.
Proof.
  intros Hk. induction d as [|p d IH]; cbn; [done |].
  by rewrite IH, Hk, Qeq_bool_refl.
Qed.

Lemma zip_with_fmap_same {A B C} (k : A → B → C) (g : A → B) (l : list A) :
  zip_with k l (g <$> l) = (λ a, k a (g a)) <$> l.
Proof. induction l as [|a l IH]; cbn; [done | by rewrite IH]. Qed.

Lemma absorption_rate_Ok self irrad fluorophore :
  irradiance self = Ok irrad →
  ∃ rate, absorption_rate self fluorophore = Ok rate
    ∧ data rate =
        (λ p, (p.1, Float.div p.2 (photon_energy p.1)))
          <$> data (DA.binop Float.mul irrad (absorption_cross_section fluorophore))
    ∧ da_name rate = Some "absorption_rate"
    ∧ attrs rate !! "long_name" = Some "Absorption rate"
    ∧ attrs rate !! "units" = Some "photons/s/fluorophore".
Proof.
  intros Hirr. unfold absorption_rate. rewrite Hirr. cbn [mbind result_bind].
  eexists. split; [done |]. split_and!; [| done | by simplify_map_eq..].
  set (watts := DA.binop Float.mul irrad (absorption_cross_section fluorophore)).
  cbn [data DA.set_attr DA.set_name DA.binop DA.map DA.coords_w].
  rewrite <- !list_fmap_compose, same_index_fmap by done.
  by rewrite zip_with_fmap_same.
Qed.

(** C4. With an illumination, the irradiance is the array of the
    illumination spectrum with every value divided by the sum of the
    values, named "irradiance", with units "W/cm^2"; the [power] field
    has no part in it; and its values sum to one whenever the sum of the
    illumination values is a finite number other than zero. Both sums
    are the array library's, which leave out the values that are [NaN]. *)
Theorem irradiance_normalization self illum :
  illumination self = Some illum →
  ∃ irrad, irradiance self = Ok irrad
    ∧ data irrad =
        prod_map id (λ x, Float.div x (DA.sum (as_xarray illum)))
          <$> data (as_xarray illum)
    ∧ da_name irrad = Some "irradiance"
    ∧ attrs irrad !! "units" = Some "W/cm^2"
    ∧ (∀ p, irradiance (with_power self p) = Ok irrad)
    ∧ (∀ total, DA.sum (as_xarray illum) = Float.Fin total → ¬ (total == 0)%Q →
         Float.is_num (DA.sum irrad) 1).
Proof.
  intros Hill. eexists. split; [by apply irradiance_Some |].
  split_and!; [done | done | by simplify_map_eq | |].
  - intros p. rewrite irradiance_with_power. by apply irradiance_Some.
  - intros total Hsum Hnz. rewrite Hsum.
    by apply (sum_normalized (as_xarray illum)).
Qed.

Lemma same_index_Forall2 (d1 d2 : list (Q * Float.t)) :
  DA.same_index d1 d2 = true → Forall2 (λ p q, (q.1 == p.1)%Q) d1 d2.
Proof.
  revert d2. induction d1 as [|p d1 IH]; intros [|q d2]; cbn; try done.
  intros [Hw Hs]%andb_true_iff. constructor; [| by apply IH].
  symmetry. by apply Qeq_bool_eq.
Qed.

Lemma sel_Some w (b : DataArray) x :
  DA.sel w b = Some x → ∃ w', (w', x) ∈ data b ∧ (w' == w)%Q.
Proof.
  unfold DA.sel. destruct (find _ (data b)) as [[w' x']|] eqn:Hfind; [|done].
  intros [= <-]. apply find_some in Hfind as [Hin Hw]. exists w'.
  split; [by apply list_elem_of_In | by apply Qeq_bool_eq].
Qed.

Lemma sel_is_Some w (b : DataArray) w' x :
  (w', x) ∈ data b → (w' == w)%Q → is_Some (DA.sel w b).
Proof.
  intros Hin Hw. unfold DA.sel.
  destruct (find _ (data b)) as [q|] eqn:Hfind; [by eexists |].
  apply list_elem_of_In in Hin. apply (find_none _ _ Hfind) in Hin.
  cbn in Hin. by rewrite (proj2 (Qeq_bool_iff w' w) Hw) in Hin.
Qed.

(** Every entry of the result of a binary operation joins an entry of the
    left operand with an entry of the right operand at the same label. *)
Lemma binop_sound f (a b : DataArray) w v :
  (w, v) ∈ data (DA.binop f a b) →
  ∃ i w' x, (w, i) ∈ data a ∧ (w', x) ∈ data b ∧ (w' == w)%Q ∧ v = f i x.
Proof.
  cbn [DA.binop data]. destruct (DA.same_index (data a) (data b)) eqn:Hsame.
  - apply same_index_Forall2 in Hsame.
    induction Hsame as [|[w1 i1] [w2 x2] d1 d2 Hw _ IH]; cbn;
      [by intros ?%elem_of_nil |].
    intros [[= -> ->]|Hin]%elem_of_cons.
    + exists i1, w2, x2. split_and!; [by left | by left | done | done].
    + destruct (IH Hin) as (i & w' & x & ? & ? & ? & ?).
      exists i, w', x. split_and!; [by right | by right | done | done].
  - intros ([w0 i] & Hin & Hsel)%list_elem_of_omap. cbn [fst snd] in Hsel.
    destruct (DA.sel w0 b) as [x|] eqn:Hx; [|done]. injection Hsel as <- <-.
    destruct (sel_Some _ _ _ Hx) as (w' & Hin' & Hw).
    by exists i, w', x.
Qed.

(** Every entry of the left operand whose label the right operand has
    too is joined with an entry of that label. *)
Lemma binop_complete f (a b : DataArray) w i :
  (w, i) ∈ data a →
  (∃ w' x, (w', x) ∈ data b ∧ (w' == w)%Q) →
  ∃ w' x, (w', x) ∈ data b ∧ (w' == w)%Q ∧ (w, f i x) ∈ data (DA.binop f a b).
Proof.
  intros Hin (w0 & x0 & Hin0 & Hw0).
  cbn [DA.binop data]. destruct (DA.same_index (data a) (data b)) eqn:Hsame.
  - clear Hin0 Hw0. apply same_index_Forall2 in Hsame.
    induction Hsame as [|[w1 i1] [w2 x2] d1 d2 Hw _ IH]; cbn;
      [by apply elem_of_nil in Hin |].
    apply elem_of_cons in Hin as [[= -> ->]|Hin].
    + exists w2, x2. split_and!; [by left | done | by left].
    + destruct (IH Hin) as (w' & x & ? & ? & ?).
      exists w', x. split_and!; [by right | done | by right].
  - destruct (sel_is_Some w b w0 x0 Hin0 Hw0) as [x Hx].
    destruct (sel_Some _ _ _ Hx) as (w' & Hin' & Hw).
    exists w', x. split_and!; [done | done |].
    apply list_elem_of_omap. exists (w, i). split; [done |].
    cbn [fst snd]. by rewrite Hx.
Qed.

(** The labels of the result are labels of the left operand, in their
    order, each taken once at most. *)
Lemma binop_sublist f (a b : DataArray) :
  (data (DA.binop f a b)).*1 `sublist_of` (data a).*1.
Proof.
  cbn [DA.binop data]. destruct (DA.same_index (data a) (data b)) eqn:Hsame.
  - apply same_index_Forall2 in Hsame.
    induction Hsame as [|p q d1 d2 _ _ IH]; cbn; [done | by constructor].
  - clear Hsame. induction (data a) as [|p d IH]; cbn; [done |].
    destruct (DA.sel p.1 b) as [x|]; cbn; by constructor.
Qed.

Lemma unique_labels_singleton (p : Q * Float.t) : unique_labels [p].
Proof. by intros q1 q2 ->%list_elem_of_singleton ->%list_elem_of_singleton _. Qed.

(** C5. With an illumination, the absorption rate is the product of the
    irradiance and the absorption cross section over the photon energy,
    bin by bin: every value of the rate, at a wavelength label w (in
    nanometers), is i x / (h c / (w 1e-9)) for the value i of the
    irradiance at w and a value x of the cross section at w; every bin of
    the irradiance whose label the cross section has gives such a value
    of the rate, with the value of the cross section when its labels are
    unique; the labels of the rate are labels of the irradiance in their
    order. The rate is named "absorption_rate", with long name
    "Absorption rate" and units "photons/s/fluorophore". *)
Theorem absorption_rate_formula self illum fluorophore :
  illumination self = Some illum →
  ∃ irrad rate, irradiance self = Ok irrad
    ∧ absorption_rate self fluorophore = Ok rate
    ∧ (∀ w v, (w, v) ∈ data rate →
         ∃ i w' x, (w, i) ∈ data irrad
           ∧ (w', x) ∈ data (absorption_cross_section fluorophore)
           ∧ (w' == w)%Q
           ∧ v = photons_absorbed w i x)
    ∧ (∀ w i, (w, i) ∈ data irrad →
         (∃ w' x, (w', x) ∈ data (absorption_cross_section fluorophore)
            ∧ (w' == w)%Q) →
         ∃ w' x, (w', x) ∈ data (absorption_cross_section fluorophore)
           ∧ (w' == w)%Q
           ∧ (w, photons_absorbed w i x) ∈ data rate)
    ∧ (unique_labels (data (absorption_cross_section fluorophore)) →
       ∀ w i w' x, (w, i) ∈ data irrad →
         (w', x) ∈ data (absorption_cross_section fluorophore) →
         (w' == w)%Q →
         (w, photons_absorbed w i x) ∈ data rate)
    ∧ (data rate).*1 `sublist_of` (data irrad).*1
    ∧ da_name rate = Some "absorption_rate"
    ∧ attrs rate !! "long_name" = Some "Absorption rate"
    ∧ attrs rate !! "units" = Some "photons/s/fluorophore".
Proof.
  intros Hill. eexists.
  destruct (absorption_rate_Ok self _ fluorophore (irradiance_Some _ _ Hill))
    as (rate & Hrate & Hdata & Hname & Hlong & Hunits).
  exists rate. split; [by apply irradiance_Some |]. split; [done |].
  set (irrad := DA.set_attr _ _ _) in *.
  set (cs := absorption_cross_section fluorophore) in *.
  assert (Hcomplete : ∀ w i, (w, i) ∈ data irrad →
            (∃ w' x, (w', x) ∈ data cs ∧ (w' == w)%Q) →
            ∃ w' x, (w', x) ∈ data cs ∧ (w' == w)%Q
              ∧ (w, photons_absorbed w i x) ∈ data rate).
  { intros w i Hin Hcs.
    destruct (binop_complete Float.mul irrad cs w i Hin Hcs)
      as (w' & x & Hin' & Hw & Hprod).
    exists w', x. split_and!; [done | done |]. rewrite Hdata.
    apply list_elem_of_fmap. by exists (w, Float.mul i x). }
  split_and!; [| exact Hcomplete | | | done..].
  - intros w v Hin. rewrite Hdata in Hin.
    apply list_elem_of_fmap in Hin as ([w0 y] & [= -> ->] & Hin).
    destruct (binop_sound _ _ _ _ _ Hin) as (i & w' & x & Hi & Hx & Hw & ->).
    by exists i, w', x.
  - intros Huniq w i w' x Hin Hin' Hw.
    destruct (Hcomplete w i Hin) as (w'' & x' & Hin'' & Hw' & Hr); [by eauto |].
    assert ((w', x) = (w'', x')) as [= _ ->]; [| done].
    apply Huniq; [done | done |]. cbn. by rewrite Hw, Hw'.
  - rewrite Hdata, <- list_fmap_compose. apply (binop_sublist Float.mul).
Qed.

Lemma illumination_None self :
  illumination self = None ↔
  lights self = [] ∧ excitation_filters (filters self) = [].
Proof.
  unfold illumination, excitation, _merge.
  destruct (lights self) as [|l0 rest];
    destruct (excitation_filters (filters self)) as [|f0 [|f1 fs]];
    split; try done; by intros [? ?].
Qed.

(** C6. The illumination is absent exactly when there are no lights and
    no excitation contributors. Then [irradiance] raises the error "This
    Optical Config has no illumination spectrum." and so does
    [absorption_rate] for every fluorophore. With an illumination both
    return a value. *)
Theorem missing_illumination_error self :
  (illumination self = None ↔
     lights self = [] ∧ excitation_filters (filters self) = [])
  ∧ (illumination self = None →
       irradiance self = Err no_illumination
       ∧ ∀ fluorophore, absorption_rate self fluorophore = Err no_illumination)
  ∧ (∀ illum, illumination self = Some illum →
       (∃ irrad, irradiance self = Ok irrad)
       ∧ ∀ fluorophore, ∃ rate, absorption_rate self fluorophore = Ok rate).
Proof.
  split_and!.
  - apply illumination_None.
  - intros Hill. unfold absorption_rate, irradiance. by rewrite Hill.
  - intros illum Hill. split; [eexists; by apply irradiance_Some |].
    intros fluorophore.
    destruct (absorption_rate_Ok self _ fluorophore (irradiance_Some _ _ Hill))
      as (rate & Hrate & _).
    by exists rate.
Qed.

End Irradiance.

(** ** Texts *)

Section Texts.

Lemma append_assoc (s1 s2 s3 : string) : (s1 +:+ s2) +:+ s3 = s1 +:+ s2 +:+ s3.
Proof.
  induction s1 as [|a s1 IH]; [done |].
  change (String a ((s1 +:+ s2) +:+ s3) = String a (s1 +:+ s2 +:+ s3)).
  by f_equal.
Qed.

Lemma append_empty_r (s : string) : s +:+ EmptyString = s.
Proof.
  induction s as [|a s IH]; [done |].
  change (String a (s +:+ EmptyString) = String a s). by f_equal.
Qed.

Lemma append_cons (a : ascii) (s1 s2 : string) :
  String a s1 +:+ s2 = String a (s1 +:+ s2).
Proof. done. Qed.

Lemma prefix_true (sub s : string) :
  String.prefix sub s = true ↔ ∃ post, s = sub +:+ post.
Proof.
  revert sub. induction s as [|b s IH]; intros [|a sub]; simpl.
  - split; [by exists EmptyString | done].
  - split; [done | by intros [? ?]].
  - split; [by exists (String b s) | done].
  - destruct (ascii_dec a b) as [->|Hne].
    + rewrite IH. split; intros [post Hp]; exists post.
      * by rewrite append_cons, Hp.
      * rewrite append_cons in Hp. congruence.
    + split; [done | intros [post Hp]]. rewrite append_cons in Hp. congruence.
Qed.

(** [sub in s] decides that [sub] is a part of [s]. *)
Lemma contains_infix (sub s : string) :
  Str.contains sub s = true ↔ Str.infix sub s.
Proof.
  induction s as [|a s IH]; cbn [Str.contains].
  - rewrite orb_false_r, prefix_true. split.
    + intros [post Hp]. by exists EmptyString, post.
    + intros ([|b pre] & post & Hp); [by exists post |].
      by rewrite append_cons in Hp.
  - rewrite orb_true_iff, IH, prefix_true. split.
    + intros [[post Hp] | (pre & post & Hp)].
      * by exists EmptyString, post.
      * exists (String a pre), post. by rewrite append_cons, Hp.
    + intros ([|b pre] & post & Hp); [left; by exists post |].
      right. exists pre, post. rewrite append_cons in Hp. congruence.
Qed.

Lemma infix_refl (s : string) : Str.infix s s.
Proof. exists EmptyString, EmptyString. by rewrite append_empty_r. Qed.

Lemma infix_append_l (sub s1 s2 : string) :
  Str.infix sub s2 → Str.infix sub (s1 +:+ s2).
Proof.
  intros (pre & post & ->). exists (s1 +:+ pre), post. by rewrite append_assoc.
Qed.

Lemma infix_append_r (sub s1 s2 : string) :
  Str.infix sub s1 → Str.infix sub (s1 +:+ s2).
Proof.
  intros (pre & post & ->). exists pre, (post +:+ s2). by rewrite !append_assoc.
Qed.

(** Every joined text is a part of the join. *)
Lemma infix_join (sep x : string) (l : list string) :
  x ∈ l → Str.infix x (Str.join sep l).
Proof.
  unfold Str.join. induction l as [|y l IH]; [by intros ?%elem_of_nil |].
  intros [->|Hx]%elem_of_cons; cbn [String.concat]; destruct l as [|z l].
  - apply infix_refl.
  - apply infix_append_r, infix_refl.
  - by apply elem_of_nil in Hx.
  - by apply infix_append_l, infix_append_l, IH.
Qed.

Lemma repr_char_plain (a : ascii) :
  plain_char a = true → Str.repr_char Str.squote a = String a EmptyString.
Proof.
  unfold plain_char, Str.repr_char.
  intros [[[Hp Hs%negb_true_iff]%andb_true_iff _]%andb_true_iff
            Hb%negb_true_iff]%andb_true_iff.
  rewrite Hs, Hb, Hp. cbn [orb].
  unfold Str.printable in Hp.
  destruct (Str.code a =? 9) eqn:E9; [apply Nat.eqb_eq in E9; by rewrite E9 in Hp |].
  destruct (Str.code a =? 10) eqn:E10; [apply Nat.eqb_eq in E10; by rewrite E10 in Hp |].
  destruct (Str.code a =? 13) eqn:E13; [apply Nat.eqb_eq in E13; by rewrite E13 in Hp |].
  done.
Qed.

Lemma repr_body_plain (s : string) :
  plain s = true → Str.repr_body Str.squote s = s
    ∧ Str.has_char Str.squote s = false.
Proof.
  induction s as [|a s IH]; [done |]. cbn [plain].
  intros [Ha Hs]%andb_true_iff. destruct (IH Hs) as [IH1 IH2]. split.
  - cbn [Str.repr_body]. by rewrite repr_char_plain, IH1.
  - unfold Str.has_char in *. cbn [list_ascii_of_string existsb].
    rewrite IH2, orb_false_r. unfold plain_char in Ha.
    rewrite Ascii.eqb_sym.
    destruct (Ascii.eqb a Str.squote); [by rewrite !andb_false_r in Ha | done].
Qed.

(** The [repr] of a plain text is the text between single quotes. *)
Lemma repr_plain (s : string) :
  plain s = true →
  Str.repr s = String Str.squote (s +:+ String Str.squote EmptyString).
Proof.
  intros Hs. destruct (repr_body_plain s Hs) as [Hb Hq].
  unfold Str.repr. rewrite Hq. cbn [andb]. by rewrite Hb.
Qed.

Lemma infix_repr_plain (s : string) : plain s = true → Str.infix s (Str.repr s).
Proof.
  intros Hs. rewrite repr_plain by done.
  by exists (String Str.squote EmptyString), (String Str.squote EmptyString).
Qed.

End Texts.

(** ** Lookup in FPbase *)

Section Lookup.
Context `{Remote}.

Implicit Types (cfg : FPbaseOpticalConfig FPSpectrum FPFilter)
  (cfgs : list (FPbaseOpticalConfig FPSpectrum FPFilter))
  (oc : OpticalConfig Spectrum).

Lemma from_fpbase_loop_Some config_name cfgs oc :
  from_fpbase_loop config_name cfgs = Some oc ↔
  ∃ pre cfg post, cfgs = pre ++ cfg :: post
    ∧ Forall (λ c, ¬ matches config_name c) pre
    ∧ matches config_name cfg ∧ oc = from_record cfg.
Proof.
  unfold matches. induction cfgs as [|c cfgs IH]; cbn [from_fpbase_loop].
  - split; [done | by intros ([|??] & ? & ? & ? & _)].
  - destruct (String.eqb_spec (Str.lower (cfg_name c)) (Str.lower config_name))
      as [Heq|Hne].
    + split.
      * intros [= <-]. by exists [], c, cfgs.
      * intros ([|c' pre] & cfg & post & Hc & Hpre & Hm & ->).
        -- by injection Hc as -> _.
        -- injection Hc as -> _. by apply Forall_cons in Hpre as [? _].
    + rewrite IH. split.
      * intros (pre & cfg & post & -> & Hpre & Hm & ->).
        exists (c :: pre), cfg, post. by rewrite Forall_cons.
      * intros ([|c' pre] & cfg & post & Hc & Hpre & Hm & ->).
        -- by injection Hc as -> _.
        -- injection Hc as -> ->. apply Forall_cons in Hpre as [_ Hpre].
           by exists pre, cfg, post.
Qed.

Lemma from_fpbase_loop_None config_name cfgs :
  from_fpbase_loop config_name cfgs = None ↔
  Forall (λ c, ¬ matches config_name c) cfgs.
Proof.
  unfold matches. induction cfgs as [|c cfgs IH]; cbn [from_fpbase_loop].
  - by split.
  - rewrite Forall_cons.
    destruct (String.eqb_spec (Str.lower (cfg_name c)) (Str.lower config_name));
      [split; [done | by intros [? _]] | by rewrite IH; split; [| intros [_ ?]]].
Qed.

Lemma from_fpbase_given microscope_id config_name fpbase_scope :
  get_microscope microscope_id = Ok fpbase_scope →
  from_fpbase microscope_id (Some config_name) =
    match from_fpbase_loop config_name (opticalConfigs fpbase_scope) with
    | Some cfg => Ok cfg
    | None =>
        Err (ValueError (not_found_message config_name microscope_id fpbase_scope))
    end.
Proof. intros Hg. unfold from_fpbase. cbn. by rewrite Hg. Qed.

Lemma not_found_message_names config_name microscope_id fpbase_scope cfg :
  cfg ∈ opticalConfigs fpbase_scope →
  Str.infix (Str.repr (cfg_name cfg))
    (not_found_message config_name microscope_id fpbase_scope).
Proof.
  intros Hin. unfold not_found_message.
  do 5 apply infix_append_l. apply infix_join.
  by apply (list_elem_of_fmap_2 (λ c, Str.repr (cfg_name c))).
Qed.

Lemma infix_trans (s1 s2 s3 : string) :
  Str.infix s1 s2 → Str.infix s2 s3 → Str.infix s1 s3.
Proof.
  intros (pre & post & ->) (pre' & post' & ->).
  exists (pre' +:+ pre), (post +:+ post'). by rewrite !append_assoc.
Qed.

(** C8. A lookup with a configuration name succeeds exactly when the
    microscope has a configuration of that name, letter case apart. When
    it has none, the error message holds the [repr] of the name of every
    configuration of the microscope, hence the name itself when it is
    made of printable characters other than quotes and backslash.
    Without a configuration name, an identifier that has no "::" gives
    an error, whatever the microscopes are. *)
Theorem from_fpbase_lookup microscope_id :
  (∀ config_name fpbase_scope,
     get_microscope microscope_id = Ok fpbase_scope →
     ((∃ oc, from_fpbase microscope_id (Some config_name) = Ok oc)
        ↔ ∃ cfg, cfg ∈ opticalConfigs fpbase_scope
            ∧ Str.lower (cfg_name cfg) = Str.lower config_name)
     ∧ ((∀ cfg, cfg ∈ opticalConfigs fpbase_scope →
           Str.lower (cfg_name cfg) ≠ Str.lower config_name) →
        ∃ msg, from_fpbase microscope_id (Some config_name) = Err (ValueError msg)
          ∧ ∀ cfg, cfg ∈ opticalConfigs fpbase_scope →
              Str.infix (Str.repr (cfg_name cfg)) msg
              ∧ (plain (cfg_name cfg) = true → Str.infix (cfg_name cfg) msg)))
  ∧ (Str.contains "::" microscope_id = false →
     ∃ msg, from_fpbase microscope_id None = Err (ValueError msg)).
Proof.
  split.
  - intros config_name fpbase_scope Hg.
    rewrite (from_fpbase_given _ _ _ Hg). split.
    + destruct (from_fpbase_loop _ _) as [oc|] eqn:Hloop.
      * apply from_fpbase_loop_Some in Hloop
          as (pre & cfg & post & Hcfgs & _ & Hm & _).
        split; [intros _ | by eexists].
        exists cfg. split; [| done]. rewrite Hcfgs. set_solver.
      * apply from_fpbase_loop_None in Hloop.
        split; [by intros [? ?] | intros (cfg & Hin & Hm)].
        by eapply Forall_forall in Hloop.
    + intros Hnone.
      assert (from_fpbase_loop config_name (opticalConfigs fpbase_scope) = None)
        as -> by by apply from_fpbase_loop_None, Forall_forall.
      eexists. split; [done |]. intros cfg Hin.
      pose proof (not_found_message_names config_name microscope_id _ _ Hin).
      split; [done |]. intros Hplain.
      by eapply infix_trans; [apply infix_repr_plain |].
  - intros Hsep. unfold from_fpbase. rewrite Hsep. by eexists.
Qed.

(** C10. A configuration returned by [from_fpbase] has no power and at
    most one light: one built from the light of the matched record when
    it has a light, none otherwise. Its name is the name stored in that
    record, and its filters are the record's filters, converted in
    order. The matched record is the first one of the microscope whose
    name is the queried name, letter case apart. *)
Theorem from_fpbase_fields microscope_id config_name oc :
  from_fpbase microscope_id config_name = Ok oc →
  power oc = None
  ∧ length (lights oc) ≤ 1
  ∧ ∃ scope_id queried fpbase_scope pre cfg post,
      match config_name with
      | Some given => scope_id = microscope_id ∧ queried = given
      | None => Str.split "::" microscope_id = [scope_id; queried]
      end
      ∧ get_microscope scope_id = Ok fpbase_scope
      ∧ opticalConfigs fpbase_scope = pre ++ cfg :: post
      ∧ Forall (λ c, Str.lower (cfg_name c) ≠ Str.lower queried) pre
      ∧ Str.lower (cfg_name cfg) = Str.lower queried
      ∧ name oc = cfg_name cfg
      ∧ filters oc = SpectrumFilter_from_fpbase <$> cfg_filters cfg
      ∧ lights oc =
          match cfg_light cfg with
          | Some light => [LightSource_from_fpbase light]
          | None => []
          end.
Proof.
  intros Hok.
  assert (∃ scope_id queried fpbase_scope,
            match config_name with
            | Some given => scope_id = microscope_id ∧ queried = given
            | None => Str.split "::" microscope_id = [scope_id; queried]
            end
            ∧ get_microscope scope_id = Ok fpbase_scope
            ∧ from_fpbase_loop queried (opticalConfigs fpbase_scope) = Some oc)
    as (scope_id & queried & fpbase_scope & Hids & Hg & Hloop).
  { unfold from_fpbase in Hok. destruct config_name as [given|].
    - cbn in Hok. destruct (get_microscope microscope_id) as [sc|] eqn:Hg; [|done].
      cbn in Hok. destruct (from_fpbase_loop _ _) eqn:Hloop; [|done].
      exists microscope_id, given, sc. naive_solver.
    - destruct (negb _); [done |].
      destruct (Str.split "::" microscope_id) as [|a [|b [|? ?]]]; try done.
      cbn in Hok. destruct (get_microscope a) as [sc|] eqn:Hg; [|done].
      cbn in Hok. destruct (from_fpbase_loop _ _) eqn:Hloop; [|done].
      exists a, b, sc. naive_solver. }
  apply from_fpbase_loop_Some in Hloop as (pre & cfg & post & Hcfgs & Hpre & Hm & ->).
  split; [done |]. split; [cbn; destruct (cfg_light cfg); cbn; lia |].
  by exists scope_id, queried, fpbase_scope, pre, cfg, post.
Qed.

End Lookup.

(** ** The string form *)

Section StringForm.
Context `{Remote} `{!Validation}.

Lemma prefix_sep_other (a : ascii) (s : string) :
  Ascii.eqb colon a = false → String.prefix "::" (String a s) = false.
Proof.
  intros Ha. destruct (String.prefix "::" (String a s)) eqn:E; [|done].
  apply prefix_true in E as [post Hp]. rewrite !append_cons in Hp.
  injection Hp as -> _. by vm_compute in Ha.
Qed.

Lemma split_go_colon_free (s cur : string) :
  Str.has_char colon s = false →
  Str.split_go "::" 0 cur s = [cur +:+ s].
Proof.
  revert cur. induction s as [|a s IH]; intros cur Hs.
  - by rewrite append_empty_r.
  - unfold Str.has_char in *. cbn [list_ascii_of_string existsb] in Hs.
    apply orb_false_iff in Hs as [Ha Hs]. cbn [Str.split_go].
    rewrite prefix_sep_other, IH, append_assoc by done. done.
Qed.

Lemma split_go_scope (scope rest cur : string) :
  Str.has_char colon scope = false →
  Str.split_go "::" 0 cur (scope +:+ "::" +:+ rest)
  = (cur +:+ scope) :: Str.split_go "::" 0 EmptyString rest.
Proof.
  revert cur. induction scope as [|a s IH]; intros cur Hs.
  - rewrite append_empty_r.
    change (EmptyString +:+ "::" +:+ rest) with (String ":" (String ":" rest)).
    cbn [Str.split_go].
    by rewrite (proj2 (prefix_true "::" _)) by by exists rest.
  - unfold Str.has_char in *. cbn [list_ascii_of_string existsb] in Hs.
    apply orb_false_iff in Hs as [Ha Hs].
    rewrite append_cons. cbn [Str.split_go].
    rewrite prefix_sep_other, IH, append_assoc by done. done.
Qed.

(** Two texts without a colon, joined by "::", split into themselves. *)
Lemma split_colon_free (scope config : string) :
  Str.has_char colon scope = false → Str.has_char colon config = false →
  Str.split "::" (scope +:+ "::" +:+ config) = [scope; config].
Proof.
  intros Hs Hc. unfold Str.split.
  by rewrite split_go_scope, split_go_colon_free.
Qed.

Lemma from_fpbase_joined (scope config : string) :
  Str.split "::" (scope +:+ "::" +:+ config) = [scope; config] →
  from_fpbase (scope +:+ "::" +:+ config) None = from_fpbase scope (Some config).
Proof.
  intros Hsplit. unfold from_fpbase.
  assert (Str.contains "::" (scope +:+ "::" +:+ config) = true) as ->
    by (apply contains_infix; by exists scope, config).
  by rewrite Hsplit.
Qed.


End StringForm.

(** * Instances of the properties in the sampled setting *)

Section SampledFacts.
Import Sampled.

Lemma Qmult_comm_eq (a b : Q) : (a * b)%Q = (b * a)%Q.
Proof.
  destruct a as [an ad], b as [bn bd]. unfold Qmult. cbn.
  by rewrite Z.mul_comm, Pos.mul_comm.
Qed.

Lemma Qmult_assoc_eq (a b c : Q) : (a * (b * c))%Q = (a * b * c)%Q.
Proof.
  destruct a as [an ad], b as [bn bd], c as [cn cd]. unfold Qmult. cbn.
  by rewrite Z.mul_assoc, Pos.mul_assoc.
Qed.

Lemma mul_comm (a b : list Q) : mul a b = mul b a.
Proof.
  revert b. induction a as [|x a IH]; intros [|y b]; cbn; [done.. |].
  by rewrite Qmult_comm_eq, IH.
Qed.

Lemma mul_assoc (a b c : list Q) : mul a (mul b c) = mul (mul a b) c.
Proof.
  revert b c. induction a as [|x a IH]; intros [|y b] [|z c]; cbn; [done.. |].
  by rewrite Qmult_assoc_eq, IH.
Qed.

End SampledFacts.

Import Sampled.

(** The inversion law on a channel with a beamsplitter between an exciter
    and an emitter: the beamsplitter passes [1/4; 1/2], its inverse
    [3/4; 1/2], the exciter [1; 1/2] and the emitter [1/2; 1]. Then on the
    same channel with the filter placed as an inverted beamsplitter, and
    on the two configurations of one beamsplitter. *)
Lemma beamsplitter_inversion_law_witness :
  ((excitation_filters (filters split_channel) = [wide_exciter; inverted half_mirror]
    ∧ emission_filters (filters split_channel) = [half_mirror; wide_emitter])
   ∧ spectrum <$> excitation split_channel
     = Some (mul [1; 1 # 2]%Q [1 - (1 # 4); 1 - (1 # 2)]%Q)
   ∧ spectrum <$> emission split_channel
     = Some (mul [1 # 4; 1 # 2]%Q [1 # 2; 1]%Q))
  ∧ ((emission_filters (filters split_channel_inv)
        = [inverted half_mirror_inv; wide_emitter]
      ∧ excitation_filters (filters split_channel_inv)
        = [wide_exciter; half_mirror_inv])
     ∧ spectrum <$> emission split_channel_inv
       = Some (mul [1 - (1 # 4); 1 - (1 # 2)]%Q [1 # 2; 1]%Q)
     ∧ spectrum <$> excitation split_channel_inv
       = Some (mul [1; 1 # 2]%Q [1 # 4; 1 # 2]%Q))
  ∧ (spectrum <$> excitation bs_only = Some [1; 0]%Q
     ∧ spectrum <$> emission bs_only = Some [0; 1]%Q)
  ∧ (spectrum <$> excitation bs_inv_only = Some [1; 0]%Q
     ∧ spectrum <$> emission bs_inv_only = Some [0; 1]%Q).
Proof.
  split; [| split; [| split]].
  - apply (proj1 (beamsplitter_inversion_law split_channel)
             [wide_exciter] half_mirror [wide_emitter]); reflexivity.
  - apply (proj1 (proj2 (beamsplitter_inversion_law split_channel_inv))
             [wide_exciter] half_mirror_inv [wide_emitter]); reflexivity.
  - apply (proj1 (proj2 (proj2 (beamsplitter_inversion_law bs_only))) dichroic);
      reflexivity.
  - apply (proj2 (proj2 (proj2 (beamsplitter_inversion_law bs_inv_only))) dichroic_inv);
      reflexivity.
Defined.

(** The three cases of the result policy: no contributor, one, and two. *)
Lemma merge_result_policy_witness :
  excitation empty = None
  ∧ emission bs_only = Some dichroic
  ∧ ∃ merged, excitation channel = Some merged
      ∧ f_name merged = "Effective excitation for FITC"
      ∧ spectrum merged = mul [1; 0]%Q (mul [1; 0]%Q [1; 1]%Q).
Proof.
  split; [| split].
  - apply (proj1 (proj1 (merge_result_policy empty))). reflexivity.
  - apply (proj1 (proj2 (proj2 (merge_result_policy bs_only))) dichroic). reflexivity.
  - exact (proj2 (proj2 (proj1 (merge_result_policy channel)))
             exciter (inverted dichroic) [] eq_refl).
Defined.

(** The illumination of two lights behind two excitation contributors, and
    of a beamsplitter without any light. *)
Lemma illumination_fold_witness :
  illumination channel
    = Some (mul (mul [1 # 2; 1 # 2]%Q [1; 0]%Q) (mul [1; 0]%Q (mul [1; 0]%Q [1; 1]%Q)))
  ∧ illumination bs_only = Some (spectrum (inverted dichroic)).
Proof.
  split.
  - exact (proj1 (illumination_fold channel) lamp [laser500] eq_refl).
  - exact (proj2 (illumination_fold bs_only) eq_refl).
Defined.

(** The irradiance of [channel] sums to one. *)
Lemma irradiance_normalization_witness :
  ∃ irrad, irradiance channel = Ok irrad
    ∧ da_name irrad = Some "irradiance"
    ∧ Float.is_num (DA.sum irrad) 1.
Proof.
  destruct (irradiance_normalization channel _ eq_refl)
    as (irrad & Hirr & _ & Hname & _ & _ & Hsum).
  exists irrad. split; [exact Hirr |]. split; [exact Hname |].
  eapply Hsum; [vm_compute; reflexivity | vm_compute; discriminate].
Defined.

(** With the exciter of [dark] blocking the only line of its laser, the
    illumination is zero everywhere and its irradiance is not a number
    anywhere: the sum of its values, which leaves those out, is zero and
    not one. *)
Lemma irradiance_dark_not_normalized :
  ¬ (∀ (O : Optics) (self : OpticalConfig Spectrum) (illum : Spectrum),
       illumination self = Some illum →
       ∃ irrad, irradiance self = Ok irrad ∧ Float.is_num (DA.sum irrad) 1).
Proof.
  intros Hall.
  destruct (Hall optics dark _ eq_refl) as (irrad & Hirr & q & Hsum & Hq).
  injection Hirr as <-. vm_compute in Hsum. injection Hsum as <-.
  vm_compute in Hq. discriminate Hq.
Qed.

(** The absorption rate of [dye] in [channel]: the irradiance is 1 in the
    bin of 500 nm, where the cross section of [dye] is 1e-16 cm^2. *)
Lemma absorption_rate_formula_witness :
  ∃ rate i, absorption_rate channel dye = Ok rate
    ∧ Float.is_num i 1
    ∧ (500 # 1, photons_absorbed (500 # 1) i (Float.Fin (1 # 10 ^ 16))) ∈ data rate
    ∧ da_name rate = Some "absorption_rate"
    ∧ attrs rate !! "units" = Some "photons/s/fluorophore".
Proof.
  destruct (absorption_rate_formula channel _ dye eq_refl)
    as (irrad & rate & Hirr & Hrate & _ & _ & Hvalue & _ & Hname & _ & Hunits).
  injection Hirr as <-.
  exists rate. eexists. split; [exact Hrate |].
  split; [| split; [| split; [exact Hname | exact Hunits]]]; cycle 1.
  - apply (Hvalue (unique_labels_singleton _)
             (500 # 1)%Q _ (500 # 1)%Q (Float.Fin (1 # 10 ^ 16)));
      [apply list_elem_of_here | apply list_elem_of_here | reflexivity].
  - eexists. split; [vm_compute; reflexivity | vm_compute; reflexivity].
Defined.

(** The error of the empty configuration, and none for [channel]. *)
Lemma missing_illumination_error_witness :
  (irradiance empty = Err no_illumination
   ∧ ∀ fluorophore, absorption_rate empty fluorophore = Err no_illumination)
  ∧ ((∃ irrad, irradiance channel = Ok irrad)
     ∧ ∀ fluorophore, ∃ rate, absorption_rate channel fluorophore = Ok rate).
Proof.
  split.
  - apply (proj1 (proj2 (missing_illumination_error empty))). reflexivity.
  - eapply (proj2 (proj2 (missing_illumination_error channel))). reflexivity.
Defined.

(** Sampled spectra multiply commutatively and associatively, so that the
    spectra of [doubled] do not depend on the order of its filters. *)
Lemma merge_order_independent_witness :
  option_Forall2 eq (spectrum <$> excitation doubled)
    (spectrum <$> excitation doubled_permuted)
  ∧ option_Forall2 eq (spectrum <$> emission doubled)
      (spectrum <$> emission doubled_permuted).
Proof.
  refine (merge_order_independent eq mul_comm mul_assoc doubled
            (filters doubled_permuted) _).
  cbn [filters doubled doubled_permuted].
  etransitivity; [apply perm_swap |].
  symmetry. apply (Permutation_cons_append [dichroic; exciter; exciter] emitter).
Defined.

(** A lookup in another letter case, a lookup of a name that is not there,
    and a lookup without a configuration name. *)
Lemma from_fpbase_lookup_witness :
  (∃ oc, from_fpbase "scopeX" (Some "widefield GREEN") = Ok oc)
  ∧ (∃ msg, from_fpbase "scopeX" (Some "missing") = Err (ValueError msg)
       ∧ Str.infix "Widefield Green" msg)
  ∧ (∃ msg, from_fpbase "scopeX" None = Err (ValueError msg)).
Proof.
  destruct (from_fpbase_lookup "scopeX") as [Hgiven Hnone].
  split; [| split].
  - apply (proj1 (Hgiven "widefield GREEN" scopeX eq_refl)).
    exists green. split; [apply list_elem_of_here | reflexivity].
  - destruct (proj2 (Hgiven "missing" scopeX eq_refl)) as (msg & Hmsg & Hnames).
    + intros cfg Hin. cbn in Hin.
      repeat (apply elem_of_cons in Hin as [-> | Hin]; [vm_compute; discriminate |]).
      by apply elem_of_nil in Hin.
    + exists msg. split; [exact Hmsg |].
      apply (Hnames green); [apply list_elem_of_here | reflexivity].
  - apply Hnone. reflexivity.
Defined.

(** The message lists the names as [repr] writes them: a backslash of a
    name is doubled, and the name is then no part of the message. *)
Lemma from_fpbase_message_escapes_names :
  ¬ (∀ (O : Optics) (R : Remote) (microscope_id config_name : string) fpbase_scope,
       get_microscope microscope_id = Ok fpbase_scope →
       (∀ cfg, cfg ∈ opticalConfigs fpbase_scope →
          Str.lower (cfg_name cfg) ≠ Str.lower config_name) →
       ∃ msg, from_fpbase microscope_id (Some config_name) = Err (ValueError msg)
         ∧ ∀ cfg, cfg ∈ opticalConfigs fpbase_scope → Str.infix (cfg_name cfg) msg).
Proof.
  intros Hall.
  destruct (Hall optics remote "scopeX" "missing" scopeX eq_refl)
    as (msg & Hmsg & Hnames).
  - intros cfg Hin. cbn in Hin.
    repeat (apply elem_of_cons in Hin as [-> | Hin]; [vm_compute; discriminate |]).
    by apply elem_of_nil in Hin.
  - injection Hmsg as <-.
    assert (Hodd : odd ∈ opticalConfigs scopeX) by (cbn; set_solver).
    apply Hnames, contains_infix in Hodd. vm_compute in Hodd. discriminate Hodd.
Qed.



(** The fields of the first configuration of [scopeX], looked up in
    another letter case. *)
Lemma from_fpbase_fields_witness :
  from_fpbase "scopeX" (Some "WIDEFIELD green") = Ok green_config
  ∧ power green_config = None ∧ length (lights green_config) ≤ 1.
Proof.
  assert (Hok : from_fpbase "scopeX" (Some "WIDEFIELD green") = Ok green_config)
    by reflexivity.
  split; [exact Hok |].
  destruct (from_fpbase_fields "scopeX" (Some "WIDEFIELD green") green_config Hok)
    as (Hpower & Hlights & _).
  split; [exact Hpower | exact Hlights].
Defined.

(** * Further properties *)

(** ** Paths *)

Section Paths.
Context `{Optics}.

Implicit Types (f : Filter Spectrum) (fs : list (Filter Spectrum))
  (self : OpticalConfig Spectrum).

Lemma _merge_None self fs path : _merge self fs path = None ↔ fs = [].
Proof. by destruct fs as [|f0 [|f1 fs]]. Qed.

Lemma bind_nil_Forall {A B} (k : A → list B) (l : list A) :
  l ≫= k = [] ↔ Forall (λ a, k a = []) l.
Proof.
  induction l as [|a l IH]; [by split |].
  rewrite bind_cons, Forall_cons, <- IH. apply app_nil.
Qed.

Lemma excitation_part_nil f : excitation_part f = [] ↔ placement f = EM_PATH.
Proof. unfold excitation_part. by destruct (placement f). Qed.

Lemma emission_part_nil f : emission_part f = [] ↔ placement f = EX_PATH.
Proof. unfold emission_part. by destruct (placement f). Qed.

(** X1. A path has no filter exactly when every filter of the
    configuration sits in the other path only: [excitation] is [None] when
    all filters are EM_PATH, [emission] is [None] when all are EX_PATH, and
    both are [None] only without any filter. *)
Theorem path_absent_iff self :
  (excitation self = None ↔ Forall (λ f, placement f = EM_PATH) (filters self))
  ∧ (emission self = None ↔ Forall (λ f, placement f = EX_PATH) (filters self))
  ∧ (excitation self = None ∧ emission self = None ↔ filters self = []).
Proof.
  assert (Hex : excitation self = None
                ↔ Forall (λ f, placement f = EM_PATH) (filters self)).
  { unfold excitation.
    rewrite _merge_None, excitation_filters_bind, bind_nil_Forall.
    apply Forall_iff. intros f. apply excitation_part_nil. }
  assert (Hem : emission self = None
                ↔ Forall (λ f, placement f = EX_PATH) (filters self)).
  { unfold emission.
    rewrite _merge_None, emission_filters_bind, bind_nil_Forall.
    apply Forall_iff. intros f. apply emission_part_nil. }
  split; [done |]. split; [done |]. rewrite Hex, Hem.
  destruct (filters self) as [|f fs]; [done |]. split; [| done].
  intros [[Hx _]%Forall_cons [Hm _]%Forall_cons]. congruence.
Qed.

Lemma fold_left_snoc {A B} (g : A → B → A) (l : list B) (b : B) (a : A) :
  fold_left g (l ++ [b]) a = g (fold_left g l a) b.
Proof. by rewrite fold_left_app. Qed.

(** The spectrum of a merge with one more filter at the end. *)
Lemma _merge_snoc self fs f path :
  spectrum <$> _merge self (fs ++ [f]) path
  = Some (from_option (λ s, smul s (spectrum f)) (spectrum f)
            (spectrum <$> _merge self fs path)).
Proof.
  destruct fs as [|f0 [|f1 fs]]; [done | done |].
  cbn [app _merge SpectrumFilter spectrum fmap option_fmap option_map from_option].
  f_equal.
  apply (fold_left_snoc (λ acc filt, smul acc (spectrum filt)) (f1 :: fs)).
Qed.

(** X2. A filter added at the end of the filter list multiplies the
    spectrum of each path it belongs to, on the right, by its own
    spectrum (by the spectrum of [inverted()] where it is the
    beamsplitter of the other path), starts the path when it was absent,
    and leaves a path it does not belong to as it was. *)
Theorem filter_appended self f :
  let self' := mkOpticalConfig (name self) (filters self ++ [f]) (lights self)
                 (power self) in
  let times (g : Filter Spectrum) (old : option Spectrum) :=
    Some (from_option (λ s, smul s (spectrum g)) (spectrum g) old) in
  spectrum <$> excitation self' =
    match placement f with
    | EM_PATH => spectrum <$> excitation self
    | BS => times (inverted f) (spectrum <$> excitation self)
    | _ => times f (spectrum <$> excitation self)
    end
  ∧ spectrum <$> emission self' =
    match placement f with
    | EX_PATH => spectrum <$> emission self
    | BS_INV => times (inverted f) (spectrum <$> emission self)
    | _ => times f (spectrum <$> emission self)
    end.
Proof.
  intros self' times. unfold excitation, emission, self'. cbn [filters name].
  rewrite excitation_filters_app, emission_filters_app,
    (excitation_filters_bind [f]), (emission_filters_bind [f]).
  cbn [mbind list_bind app]. rewrite !app_nil_r.
  unfold excitation_part, emission_part.
  destruct (placement f); rewrite ?app_nil_r, ?_merge_snoc; done.
Qed.

(** X3. The filters of the emission path have no part in what reaches
    the sample: without them the excitation filter, the illumination, the
    irradiance and the absorption rate are the same. *)
Theorem emission_filters_irrelevant self :
  let self' := mkOpticalConfig (name self)
                 (filter (λ f, placement f ≠ EM_PATH) (filters self))
                 (lights self) (power self) in
  excitation self' = excitation self
  ∧ illumination self' = illumination self
  ∧ irradiance self' = irradiance self
  ∧ ∀ fluorophore, absorption_rate self' fluorophore = absorption_rate self fluorophore.
Proof.
  intros self'.
  assert (Hex : excitation self' = excitation self).
  { unfold excitation, self'. cbn [filters name]. f_equal.
    rewrite !excitation_filters_bind.
    induction (filters self) as [|f fs IH]; [done |].
    rewrite filter_cons. destruct (decide (placement f ≠ EM_PATH)) as [Hp|Hp].
    - by rewrite !bind_cons, IH.
    - rewrite bind_cons, IH. apply dec_stable in Hp.
      by rewrite (proj2 (excitation_part_nil f) Hp). }
  assert (Hill : illumination self' = illumination self).
  { unfold illumination. by rewrite Hex. }
  assert (Hirr : irradiance self' = irradiance self).
  { unfold irradiance. by rewrite Hill. }
  split; [done |]. split; [done |]. split; [done |].
  intros fluorophore. unfold absorption_rate. by rewrite Hirr.
Qed.

Lemma illumination_congruence self self' :
  lights self = lights self' →
  spectrum <$> excitation self = spectrum <$> excitation self' →
  illumination self = illumination self'.
Proof.
  unfold illumination. intros -> Hexc.
  destruct (excitation self) as [e|], (excitation self') as [e'|];
    cbn in Hexc; try done.
  injection Hexc as ->. done.
Qed.

Lemma _merge_spectrum_name self self' fs path :
  spectrum <$> _merge self fs path = spectrum <$> _merge self' fs path.
Proof. by destruct fs as [|f0 [|f1 fs]]. Qed.

(** X15. The name of a configuration shows in the name of a merged
    filter only: under another name, and another power, the spectra of
    both paths, the illumination, the irradiance and the absorption rate
    are the same. *)
Theorem name_irrelevant self (nm : string) (p : option Q) :
  let self' := mkOpticalConfig nm (filters self) (lights self) p in
  spectrum <$> excitation self' = spectrum <$> excitation self
  ∧ spectrum <$> emission self' = spectrum <$> emission self
  ∧ illumination self' = illumination self
  ∧ irradiance self' = irradiance self
  ∧ ∀ fluorophore, absorption_rate self' fluorophore = absorption_rate self fluorophore.
Proof.
  intros self'.
  assert (Hex : spectrum <$> excitation self' = spectrum <$> excitation self)
    by apply _merge_spectrum_name.
  assert (Hill : illumination self' = illumination self)
    by by apply illumination_congruence.
  assert (Hirr : irradiance self' = irradiance self).
  { unfold irradiance. by rewrite Hill. }
  split; [done |]. split; [apply _merge_spectrum_name |].
  split; [done |]. split; [done |].
  intros fluorophore. unfold absorption_rate. by rewrite Hirr.
Qed.

End Paths.

(** ** Order of the lights *)

Section LightOrder.
Context `{Optics}.
Context (Seq : relation Spectrum).
Context `{!Equivalence Seq} `{!Proper (Seq ==> Seq ==> Seq) smul}.
Hypothesis smul_comm : ∀ a b, Seq (smul a b) (smul b a).
Hypothesis smul_assoc : ∀ a b c, Seq (smul a (smul b c)) (smul (smul a b) c).

Implicit Types (self : OpticalConfig Spectrum).

Lemma product_Forall2 l l' :
  Forall2 Seq l l' → option_Forall2 Seq (product l) (product l').
Proof.
  induction 1 as [|s s' l l' Hs _ IH]; [constructor |].
  rewrite !product_cons. constructor.
  destruct IH as [r r' Hr|]; cbn; [by rewrite Hs, Hr | done].
Qed.

(** The illumination is the product of the spectra of the lights and of
    the excitation filter. *)
Lemma illumination_product self :
  option_Forall2 Seq (illumination self)
    (product ((ls_spectrum <$> lights self)
              ++ option_list (spectrum <$> excitation self))).
Proof.
  unfold illumination. destruct (lights self) as [|l0 rest].
  - destruct (excitation self) as [exc|]; cbn; by constructor.
  - rewrite fmap_cons, <- app_comm_cons, product_cons. 
    assert (Hfold : (match rest with
                     | [] => ls_spectrum l0
                     | _ :: _ => fold_left (λ s light, smul s (ls_spectrum light))
                                   rest (ls_spectrum l0)
                     end) = fold_left smul (ls_spectrum <$> rest) (ls_spectrum l0)).
    { rewrite <- fold_left_fmap. by destruct rest. }
    rewrite Hfold. destruct (excitation self) as [exc|]; cbn [fmap option_fmap option_map option_list];
      constructor.
    + rewrite <- (fold_left_snoc smul). by apply fold_left_product.
    + rewrite app_nil_r. by apply fold_left_product.
Qed.

(** X4. When the product of spectra is commutative and associative for
    the spectral equality [Seq], the illumination does not depend on the
    order of the lights nor on the order of the filters. *)
Theorem illumination_order_independent self ls' fs' :
  lights self ≡ₚ ls' → filters self ≡ₚ fs' →
  option_Forall2 Seq (illumination self)
    (illumination (mkOpticalConfig (name self) fs' ls' (power self))).
Proof.
  intros Hls Hfs.
  set (self' := mkOpticalConfig (name self) fs' ls' (power self)).
  assert (Hexc : Forall2 Seq (option_list (spectrum <$> excitation self))
                   (option_list (spectrum <$> excitation self'))).
  { assert (Hm : option_Forall2 Seq (spectrum <$> excitation self)
                   (spectrum <$> excitation self')).
    { apply (_merge_Permutation Seq smul_comm smul_assoc). cbn [filters self'].
      rewrite !excitation_filters_bind. by apply bind_Permutation. }
    destruct Hm; cbn; by repeat constructor. }
  etrans; [apply illumination_product |].
  etrans; [| symmetry; apply illumination_product].
  cbn [lights self'].
  etrans; [apply (product_Permutation Seq smul_comm smul_assoc),
             Permutation_app; [apply fmap_Permutation, Hls | reflexivity] |].
  apply product_Forall2, Forall2_app; [reflexivity | done].
Qed.

End LightOrder.

(** ** The values of the irradiance *)

Section IrradianceValues.
Context `{Optics}.

Implicit Types (self : OpticalConfig Spectrum).

Lemma fold_Qplus_ge qs a :
  Forall (Qle 0) qs → (a <= fold_left Qplus qs a)%Q.
Proof.
  revert a. induction qs as [|q qs IH]; intros a Hqs; cbn; [apply Qle_refl |].
  apply Forall_cons in Hqs as [Hq Hqs].
  eapply Qle_trans; [| by apply IH].
  rewrite <- (Qplus_0_r a) at 1. by apply Qplus_le_compat; [apply Qle_refl |].
Qed.

Lemma fold_Qplus_elem qs a q :
  Forall (Qle 0) qs → (0 <= a)%Q → q ∈ qs → (q <= fold_left Qplus qs a)%Q.
Proof.
  revert a. induction qs as [|x qs IH]; intros a Hqs Ha Hq; [by apply elem_of_nil in Hq |].
  apply Forall_cons in Hqs as [Hx Hqs]. cbn.
  apply elem_of_cons in Hq as [->|Hq].
  - eapply Qle_trans; [| by apply fold_Qplus_ge].
    rewrite <- (Qplus_0_l x) at 1. by apply Qplus_le_compat; [| apply Qle_refl].
  - apply IH; [done | | done].
    rewrite <- (Qplus_0_l 0). by apply Qplus_le_compat.
Qed.

Lemma normalized_values (d : list (Q * Float.t)) (g : Float.t → Float.t) :
  (prod_map id g <$> d).*2 = g <$> d.*2.
Proof. rewrite <- !list_fmap_compose. by apply list_fmap_ext. Qed.

(** X5. When the values of the illumination array are finite and not
    negative, and their sum is not zero, every value of the irradiance is
    a finite number between 0 and 1. *)
Theorem irradiance_bounds self illum total :
  illumination self = Some illum →
  Forall (λ v, ∃ q, v = Float.Fin q ∧ (0 <= q)%Q) (DA.values (as_xarray illum)) →
  DA.sum (as_xarray illum) = Float.Fin total → ¬ (total == 0)%Q →
  ∃ irrad, irradiance self = Ok irrad
    ∧ Forall (λ v, ∃ q, v = Float.Fin q ∧ (0 <= q)%Q ∧ (q <= 1)%Q) (DA.values irrad).
Proof.
  intros Hill Hpos Hsum Hnz. eexists. split; [by apply irradiance_Some |].
  destruct (skipna_all_finite (DA.values (as_xarray illum))) as (qs & Hqs & Hskip).
  { eapply Forall_impl; [exact Hpos |]. intros v (q & -> & _). by eexists. }
  unfold DA.values. cbn [data DA.set_attr DA.set_name DA.map].
  rewrite Hsum, normalized_values.
  unfold DA.sum in Hsum. rewrite Hskip, Hqs in Hsum.
  rewrite fold_add_Fin in Hsum. injection Hsum as Htotal. symmetry in Htotal.
  unfold DA.values in Hqs, Hpos. rewrite Hqs in Hpos |- *.
  assert (Hqs0 : Forall (Qle 0) qs).
  { apply Forall_forall. intros q Hq. rewrite Forall_forall in Hpos.
    destruct (Hpos (Float.Fin q)) as (q' & [= <-] & Hq');
      [by apply list_elem_of_fmap_2 | done]. }
  assert (Htpos : (0 < total)%Q).
  { destruct (Qlt_le_dec 0 total) as [|Hle]; [done |]. exfalso. apply Hnz.
    apply Qle_antisym; [done |]. rewrite Htotal. by apply fold_Qplus_ge. }
  rewrite <- list_fmap_compose. apply Forall_fmap, Forall_forall.
  intros q Hq. cbn [compose]. exists (q / total)%Q.
  split; [by apply div_Fin_nonzero |]. split.
  - apply Qle_shift_div_l; [done |]. rewrite Qmult_0_l.
    by eapply Forall_forall in Hqs0.
  - apply Qle_shift_div_r; [done |]. rewrite Qmult_1_l, Htotal.
    by apply fold_Qplus_elem; [| apply Qle_refl |].
Qed.

Lemma fold_Qplus_scale qs a k :
  (fold_left Qplus (Qmult k <$> qs) (k * a) == k * fold_left Qplus qs a)%Q.
Proof.
  revert a. induction qs as [|q qs IH]; intros a; cbn; [reflexivity |].
  rewrite <- IH. apply fold_Qplus_proper. ring.
Qed.

Lemma skipna_scale l k :
  Forall (λ v, v = Float.NaN ∨ Float.is_fin v) l →
  DA.skipna (Float.mul (Float.Fin k) <$> l)
  = Float.mul (Float.Fin k) <$> DA.skipna l.
Proof.
  induction 1 as [|v l [-> | [q ->]] _ IH]; [done | |].
  - rewrite fmap_cons, !skipna_cons. cbn. apply IH.
  - rewrite fmap_cons, !skipna_cons. cbn [Float.mul Float.is_nan].
    by rewrite fmap_cons, IH.
Qed.


End IrradianceValues.

(** ** The values of the absorption rate *)

Section AbsorptionValues.
Context `{Optics}.

Implicit Types (self : OpticalConfig Spectrum) (fluorophore : Fluorophore).

Lemma hc_nonzero : ¬ (h * c == 0)%Q.
Proof. by vm_compute. Qed.

(** A finite power over the energy of a photon, for any wavelength: at
    the wavelength 0 the energy is infinite and the quotient is 0. *)
Lemma div_photon_energy (y w : Q) :
  Float.is_num (Float.div (Float.Fin y) (photon_energy w))
    (y * (w * (1 # 10 ^ 9)) / (h * c))%Q.
Proof.
  unfold photon_energy. cbn [Float.mul Float.div].
  pose proof hc_nonzero as Hhc.
  destruct (Qeq_bool (w * (1 # 10 ^ 9)) 0) eqn:Hw.
  - apply Qeq_bool_eq in Hw.
    assert ((h * c ?= 0)%Q = Gt) as -> by by vm_compute.
    cbn [Float.inf Float.div]. eexists. split; [done |].
    rewrite Hw. field. split; by vm_compute.
  - apply Qeq_bool_neq in Hw. cbn [Float.div].
    destruct (Qeq_bool (h * c / (w * (1 # 10 ^ 9))) 0) eqn:He.
    + apply Qeq_bool_eq in He. exfalso. apply Hhc.
      rewrite <- (Qmult_div_r (h * c) (w * (1 # 10 ^ 9))) by done.
      rewrite He. ring.
    + eexists. split; [done |]. field.
      split_and!; [by vm_compute.. |]. intros E. apply Hw. rewrite E. ring.
Qed.

(** X7. Where the absorbed power irradiance x cross section is a finite
    number y at the label w, the absorption rate is y w 1e-9 / (h c): it
    grows with the wavelength, it is zero where the power is zero, and at
    the label 0 it is zero and no error. *)
Theorem absorption_rate_per_wavelength self irrad rate fluorophore :
  irradiance self = Ok irrad →
  absorption_rate self fluorophore = Ok rate →
  Forall2 (λ p r, r.1 = p.1
             ∧ ∀ y, p.2 = Float.Fin y →
                 Float.is_num r.2 (y * (p.1 * (1 # 10 ^ 9)) / (h * c))%Q)
    (data (DA.binop Float.mul irrad (absorption_cross_section fluorophore)))
    (data rate).
Proof.
  intros Hirr Hrate.
  destruct (absorption_rate_Ok self irrad fluorophore Hirr)
    as (rate' & Hrate' & Hdata & _).
  rewrite Hrate in Hrate'. injection Hrate' as <-. rewrite Hdata.
  apply Forall2_fmap_r, Forall_Forall2_diag, Forall_true.
  intros [w v]. cbn [fst snd]. split; [done |].
  intros y ->. apply div_photon_energy.
Qed.

Lemma same_index_zip_with (f : Float.t → Float.t → Float.t) (d1 d2 : list (Q * Float.t)) p :
  DA.same_index d1 d2 = true →
  p ∈ zip_with (λ p q, (p.1, f p.2 q.2)) d1 d2 →
  (∃ i, (p.1, i) ∈ d1) ∧ ∃ x, x ∈ d2 ∧ (x.1 == p.1)%Q.
Proof.
  revert d2. induction d1 as [|[w1 v1] d1 IH]; intros [|[w2 v2] d2]; cbn;
    try by intros _ ?%elem_of_nil.
  intros [Hw Hsame]%andb_true_iff [->|Hp]%elem_of_cons.
  - cbn. split; [exists v1; by left |].
    exists (w2, v2). split; [by left |]. symmetry. by apply Qeq_bool_eq.
  - destruct (IH _ Hsame Hp) as [[i Hi] (x & Hx & Hxp)].
    split; [exists i; by right | exists x; split; [by right | done]].
Qed.

Lemma binop_labels f (a b : DataArray) p :
  p ∈ data (DA.binop f a b) →
  (∃ i, (p.1, i) ∈ data a) ∧ ∃ x, x ∈ data b ∧ (x.1 == p.1)%Q.
Proof.
  cbn [DA.binop data]. destruct (DA.same_index (data a) (data b)) eqn:Hsame.
  - by apply same_index_zip_with.
  - intros ([w v] & Hin & Hsel)%list_elem_of_omap. cbn [fst snd] in Hsel.
    unfold DA.sel in Hsel.
    destruct (find _ (data b)) as [x|] eqn:Hfind; [|done].
    injection Hsel as <-. cbn [fst].
    apply find_some in Hfind as [Hx Hw]. split; [by exists v |].
    exists x. split; [by apply list_elem_of_In | by apply Qeq_bool_eq].
Qed.

(** X8. The absorption rate has a value only at a wavelength label that
    the irradiance has and that the absorption cross section of the
    fluorophore has too: nothing is filled in for a label that one of the
    two lacks. *)
Theorem absorption_rate_labels self irrad rate fluorophore :
  irradiance self = Ok irrad →
  absorption_rate self fluorophore = Ok rate →
  ∀ p, p ∈ data rate →
    (∃ i, (p.1, i) ∈ data irrad)
    ∧ ∃ x, x ∈ data (absorption_cross_section fluorophore) ∧ (x.1 == p.1)%Q.
Proof.
  intros Hirr Hrate p Hp.
  destruct (absorption_rate_Ok self irrad fluorophore Hirr)
    as (rate' & Hrate' & Hdata & _).
  rewrite Hrate in Hrate'. injection Hrate' as <-. rewrite Hdata in Hp.
  apply list_elem_of_fmap in Hp as (p' & -> & Hp'). cbn [fst].
  by apply (binop_labels Float.mul).
Qed.

End AbsorptionValues.

(** ** Queries of the lookup *)

Section Queries.
Context `{Remote}.

Implicit Types (cfgs : list (FPbaseOpticalConfig FPSpectrum FPFilter))
  (oc : OpticalConfig Spectrum).

Lemma from_fpbase_loop_lower (a b : string) cfgs :
  Str.lower a = Str.lower b → from_fpbase_loop a cfgs = from_fpbase_loop b cfgs.
Proof.
  intros Hab. induction cfgs as [|cfg cfgs IH]; [done |].
  cbn [from_fpbase_loop]. by rewrite Hab, IH.
Qed.

(** X9. Two queries that differ in letter case only find the same
    configuration: one succeeds with a configuration exactly when the
    other succeeds with it. *)
Theorem from_fpbase_case_insensitive (microscope_id a b : string) oc :
  Str.lower a = Str.lower b →
  from_fpbase microscope_id (Some a) = Ok oc
  ↔ from_fpbase microscope_id (Some b) = Ok oc.
Proof.
  intros Hab.
  destruct (get_microscope microscope_id) as [fpbase_scope|e] eqn:Hg.
  - rewrite !(from_fpbase_given _ _ _ Hg), (from_fpbase_loop_lower a b) by done.
    by destruct (from_fpbase_loop b _).
  - unfold from_fpbase. cbn. by rewrite Hg.
Qed.

(** X10. The error of a lookup that finds no configuration quotes, as
    [repr] writes them, the configuration name that was asked for and
    the identifier of the microscope. *)
Theorem from_fpbase_error_quotes_query (microscope_id config_name : string) fpbase_scope :
  get_microscope microscope_id = Ok fpbase_scope →
  (∀ cfg, cfg ∈ opticalConfigs fpbase_scope →
     Str.lower (cfg_name cfg) ≠ Str.lower config_name) →
  ∃ msg, from_fpbase microscope_id (Some config_name) = Err (ValueError msg)
    ∧ Str.infix (Str.repr config_name) msg
    ∧ Str.infix (Str.repr microscope_id) msg.
Proof.
  intros Hg Hnone. rewrite (from_fpbase_given _ _ _ Hg).
  assert (from_fpbase_loop config_name (opticalConfigs fpbase_scope) = None)
    as -> by by apply from_fpbase_loop_None, Forall_forall.
  eexists. split; [done |]. unfold not_found_message. split.
  - apply infix_append_l, infix_append_r, infix_refl.
  - do 3 apply infix_append_l. apply infix_append_r, infix_refl.
Qed.

End Queries.

(** ** All spectra *)

Section AllSpectraFacts.
Context `{Optics}.

Implicit Types (self : OpticalConfig Spectrum).

Lemma all_spectra_filters_fold (fs : list (Filter Spectrum)) st :
  fold_left all_spectra_filter fs st
  = (st.1 ++ ((λ filt, as_xarray (spectrum filt)) <$> fs),
     st.2 ++ ((λ filt, f_name filt +:+ " (" +:+ Placement_name (placement filt) +:+ ")")
                <$> fs)).
Proof.
  revert st. induction fs as [|f fs IH]; intros [d c]; cbn.
  - by rewrite !app_nil_r.
  - rewrite IH. cbn. by rewrite <- !app_assoc.
Qed.

Lemma all_spectra_lights_fold (ls : list (LightSource Spectrum)) st :
  fold_left all_spectra_light ls st
  = (st.1 ++ ((λ light, as_xarray (ls_spectrum light)) <$> ls),
     st.2 ++ (ls_name <$> ls)).
Proof.
  revert st. induction ls as [|l ls IH]; intros [d c]; cbn.
  - by rewrite !app_nil_r.
  - rewrite IH. cbn. by rewrite <- !app_assoc.
Qed.

(** X11. [all_spectra] fails exactly for a configuration without filters
    and without lights, with the error of the concatenation of nothing.
    Otherwise it stacks one array for each filter, in order, then one for
    each light, in order; a filter is labelled "name (PLACEMENT)" and
    carries its own spectrum whatever its placement, a light is labelled
    by its name; there are as many labels as arrays. *)
Theorem all_spectra_rows self :
  (filters self = [] ∧ lights self = [] →
     all_spectra self
     = Err (ValueError "must supply at least one object to concatenate"))
  ∧ (¬ (filters self = [] ∧ lights self = []) →
     ∃ da, all_spectra self = Ok da
       ∧ rows da = ((λ filt, as_xarray (spectrum filt)) <$> filters self)
                   ++ ((λ light, as_xarray (ls_spectrum light)) <$> lights self)
       ∧ spectra da
         = ((λ filt, f_name filt +:+ " (" +:+ Placement_name (placement filt) +:+ ")")
              <$> filters self)
           ++ (ls_name <$> lights self)
       ∧ length (spectra da) = length (rows da)).
Proof.
  unfold all_spectra.
  rewrite all_spectra_filters_fold, all_spectra_lights_fold. cbn [fst snd app].
  split.
  - by intros [-> ->].
  - intros Hne.
    set (arrays := _ ++ _ : list DataArray). set (labels := _ ++ _ : list string).
    assert (Hlen : length labels = length arrays).
    { unfold labels, arrays. by rewrite !length_app, !length_fmap. }
    assert (Harrays : arrays ≠ []).
    { unfold arrays. intros [Hf Hl]%app_nil. apply Hne.
      by apply fmap_nil_inv in Hf, Hl. }
    destruct arrays as [|d0 arrays'] eqn:Hd; [done |].
    cbn [concat mbind result_bind]. unfold coords_update. cbn [rows].
    rewrite (proj2 (Nat.eqb_eq _ _) Hlen). eexists. by split_and!.
Qed.

End AllSpectraFacts.

(** ** Hash and equality *)

Section IdentityFacts.
Context `{Runtime}.

Implicit Types (self other : Object Spectrum) (frame : FrameInfo).

Lemma eq_frame_not_get_loc : in_get_loc eq_frame = false.
Proof. unfold in_get_loc, eq_frame. cbn. apply andb_false_r. Qed.

(** X12. Called from the label lookup ([get_loc] of a file of pandas), a
    configuration equals a string exactly when the hash of its name is the
    hash of the string, so it equals its own name, and its hash is the
    hash of its name: it is found under its name. *)
Theorem found_under_name frame self :
  in_get_loc frame = true →
  (∀ s, __eq__ frame self (VStr s) = true
        ↔ str_hash (name (fields self)) = str_hash s)
  ∧ __eq__ frame self (VStr (name (fields self))) = true
  ∧ __hash__ frame self = hash frame (VStr (name (fields self))).
Proof.
  intros Hframe. unfold __eq__, __hash__. rewrite Hframe. cbn [hash].
  split; [intros s; apply Z.eqb_eq |]. split; [apply Z.eqb_refl | done].
Qed.

(** X13. Called from the label lookup, a configuration equals another
    configuration exactly when the hash of its own name is the identity of
    the other one: the name and the fields of the other one play no part,
    since [hash(value)] is then asked from [__eq__] and not from
    [get_loc]. *)
Theorem lookup_equality_of_configs frame self other :
  in_get_loc frame = true →
  __eq__ frame self (VConfig other) = true
  ↔ str_hash (name (fields self)) = id_of other.
Proof.
  intros Hframe. unfold __eq__. rewrite Hframe. cbn [hash]. unfold __hash__.
  rewrite eq_frame_not_get_loc. apply Z.eqb_eq.
Qed.

End IdentityFacts.

(** ** Lasers *)

Section LaserFacts.
Context `{Builders}.

Implicit Types (self : OpticalConfig Spectrum).

(** X14. A configuration lit by one laser, without a filter in the
    excitation path, has the one line of the laser as its illumination,
    whatever the power of the laser; and when the array of that spectrum
    is the one bin of the laser with the value 1, the irradiance is 1 in
    that bin. *)
Theorem laser_line self (wavelength : Q) (power : option Q) :
  lights self = [laser wavelength power] →
  excitation self = None →
  illumination self = Some (Spectrum_make [wavelength] [1%Q])
  ∧ (data (as_xarray (Spectrum_make [wavelength] [1%Q]))
       = [(wavelength, Float.Fin 1)] →
     ∃ irrad v, irradiance self = Ok irrad
       ∧ data irrad = [(wavelength, v)] ∧ Float.is_num v 1).
Proof.
  intros Hlights Hexc.
  assert (Hill : illumination self = Some (Spectrum_make [wavelength] [1%Q])).
  { unfold illumination. by rewrite Hlights, Hexc. }
  split; [done |]. intros Hdata. do 2 eexists.
  split; [by apply irradiance_Some |].
  cbn [data DA.set_attr DA.set_name DA.map]. unfold DA.sum, DA.values.
  rewrite Hdata. split; [done |]. eexists. split; [done |]. by vm_compute.
Qed.

End LaserFacts.


(** * Instances of the further properties *)

Import SampledRuntime.

(** An emitter alone leaves the excitation path empty, and [empty] has no
    path at all. *)
Lemma path_absent_iff_witness :
  excitation emitter_only = None
  ∧ (excitation empty = None ∧ emission empty = None).
Proof.
  split.
  - apply (proj1 (path_absent_iff emitter_only)). repeat constructor.
  - apply (proj2 (proj2 (path_absent_iff empty))). reflexivity.
Defined.

(** The blocker at the end of [channel] multiplies its excitation
    spectrum and leaves its emission spectrum. *)
Lemma filter_appended_witness :
  spectrum <$> excitation channel_blocked
  = Some (from_option (λ s, mul s [0; 1]%Q) [0; 1]%Q (spectrum <$> excitation channel))
  ∧ spectrum <$> emission channel_blocked = spectrum <$> emission channel.
Proof. exact (filter_appended channel blocker). Defined.

(** [channel] without its emitter. *)
Lemma emission_filters_irrelevant_witness :
  irradiance channel_no_emitter = irradiance channel
  ∧ absorption_rate channel_no_emitter dye = absorption_rate channel dye.
Proof.
  destruct (emission_filters_irrelevant channel) as (_ & _ & Hirr & Hrate).
  split; [exact Hirr | exact (Hrate dye)].
Defined.

(** [channel] under the name "Cy5" and without a power. *)
Lemma name_irrelevant_witness :
  irradiance channel_renamed = irradiance channel
  ∧ absorption_rate channel_renamed dye = absorption_rate channel dye.
Proof.
  destruct (name_irrelevant channel "Cy5" None) as (_ & _ & _ & Hirr & Hrate).
  split; [exact Hirr | exact (Hrate dye)].
Defined.

(** The illumination of [doubled] with its lights and its filters in
    another order. *)
Lemma illumination_order_independent_witness :
  option_Forall2 eq (illumination doubled) (illumination doubled_lights_permuted).
Proof.
  refine (illumination_order_independent eq mul_comm mul_assoc doubled
            (lights doubled_lights_permuted) (filters doubled_lights_permuted) _ _).
  - apply perm_swap.
  - cbn [filters doubled doubled_lights_permuted].
    etransitivity; [apply perm_swap |].
    symmetry. apply (Permutation_cons_append [dichroic; exciter; exciter] emitter).
Defined.

(** The values of the irradiance of [channel] lie between 0 and 1. *)
Lemma irradiance_bounds_witness :
  ∃ irrad, irradiance channel = Ok irrad
    ∧ Forall (λ v, ∃ q, v = Float.Fin q ∧ (0 <= q)%Q ∧ (q <= 1)%Q) (DA.values irrad).
Proof.
  eapply (irradiance_bounds channel); [reflexivity | | reflexivity | by vm_compute].
  repeat constructor; eexists; (split; [reflexivity | by vm_compute]).
Defined.


(** The absorption rate of [dye] in [channel], bin by bin. *)
Lemma absorption_rate_per_wavelength_witness :
  ∃ irrad rate, irradiance channel = Ok irrad
    ∧ absorption_rate channel dye = Ok rate
    ∧ Forall2 (λ p r, r.1 = p.1
                 ∧ ∀ y, p.2 = Float.Fin y →
                     Float.is_num r.2 (y * (p.1 * (1 # 10 ^ 9)) / (h * c))%Q)
        (data (DA.binop Float.mul irrad (absorption_cross_section dye)))
        (data rate).
Proof.
  do 2 eexists. split; [reflexivity |]. split; [reflexivity |].
  apply (absorption_rate_per_wavelength channel _ _ dye); reflexivity.
Defined.

(** [dye] has a cross section at 500 nm only, and so has its absorption
    rate in [channel]. *)
Lemma absorption_rate_labels_witness :
  ∃ irrad rate, irradiance channel = Ok irrad
    ∧ absorption_rate channel dye = Ok rate
    ∧ ∀ p, p ∈ data rate →
        (∃ i, (p.1, i) ∈ data irrad)
        ∧ ∃ x, x ∈ data (absorption_cross_section dye) ∧ (x.1 == p.1)%Q.
Proof.
  do 2 eexists. split; [reflexivity |]. split; [reflexivity |].
  apply (absorption_rate_labels channel _ _ dye); reflexivity.
Defined.

(** A query in capitals finds what the query in small letters finds. *)
Lemma from_fpbase_case_insensitive_witness :
  from_fpbase "scopeX" (Some "WIDEFIELD GREEN") = Ok green_config.
Proof.
  apply (from_fpbase_case_insensitive "scopeX" "widefield green" "WIDEFIELD GREEN");
    reflexivity.
Defined.

(** The error for the name "missing" in [scopeX]. *)
Lemma from_fpbase_error_quotes_query_witness :
  ∃ msg, from_fpbase "scopeX" (Some "missing") = Err (ValueError msg)
    ∧ Str.infix "'missing'" msg ∧ Str.infix "'scopeX'" msg.
Proof.
  apply (from_fpbase_error_quotes_query (H0 := remote) "scopeX" "missing" scopeX);
    [reflexivity |].
  intros cfg Hin. cbn in Hin.
  repeat (apply elem_of_cons in Hin as [-> | Hin]; [vm_compute; discriminate |]).
  by apply elem_of_nil in Hin.
Defined.

(** All spectra of nothing, and of [channel]. *)
Lemma all_spectra_rows_witness :
  all_spectra empty = Err (ValueError "must supply at least one object to concatenate")
  ∧ ∃ da, all_spectra channel = Ok da
      ∧ spectra da
        = ["exciter (EX_PATH)"; "dichroic (BS)"; "emitter (EM_PATH)"; "lamp";
           "500nm Laser"].
Proof.
  split.
  - apply (proj1 (all_spectra_rows empty)). by split.
  - destruct (proj2 (all_spectra_rows channel)) as (da & Hda & _ & Hlabels & _).
    + by intros [? _].
    + exists da. split; [exact Hda | exact Hlabels].
Defined.

(** In the label lookup [fitc] is found under "FITC". *)
Lemma found_under_name_witness :
  __eq__ get_loc_frame fitc (VStr "FITC") = true
  ∧ __hash__ get_loc_frame fitc = hash get_loc_frame (VStr "FITC").
Proof.
  destruct (found_under_name get_loc_frame fitc eq_refl) as (_ & Heq & Hhash).
  split; [exact Heq | exact Hhash].
Defined.

(** In the label lookup [fitc] equals an object of another configuration
    whose identity is the hash of "FITC", and not the object [fitc_again]
    of its own configuration. *)
Lemma lookup_equality_of_configs_witness :
  __eq__ get_loc_frame fitc (VConfig unrelated) = true
  ∧ __eq__ get_loc_frame fitc (VConfig fitc_again) ≠ true.
Proof.
  split.
  - apply (lookup_equality_of_configs get_loc_frame fitc unrelated); reflexivity.
  - intros Heq.
    apply (lookup_equality_of_configs get_loc_frame fitc fitc_again eq_refl) in Heq.
    discriminate Heq.
Defined.

(** A laser of 488 nm with an emission filter only. *)
Lemma laser_line_witness :
  illumination Pairs.laser_only = Some [(488 # 1, 1)]%Q
  ∧ ∃ irrad v, irradiance Pairs.laser_only = Ok irrad
      ∧ data irrad = [(488 # 1, v)] ∧ Float.is_num v 1.
Proof.
  destruct (@laser_line Pairs.optics Pairs.builders Pairs.laser_only 488 (Some 2%Q)
              eq_refl eq_refl) as [Hill Hirr].
  split; [exact Hill |]. apply Hirr. reflexivity.
Defined.
